(** * fairing.kubernetes.manager: the watch-driven operations of [KubeManager]

    A shallow embedding of [src/fairing/kubernetes/manager.py].  The two
    watch loops ([get_service_external_endpoint] and [log]) and the two
    custom-resource creation calls are translated statement by statement.

    Python effects are made explicit: a computation returns the trace of
    the calls it made on the outside world ([print], [logger.*], the
    Kubernetes client) together with either a value or the exception it
    raised.  What the cluster answers (the events a watch delivers, what
    [read_namespaced_pod_log] returns, the chunks of a log body) is an
    argument of the model. *)

From Stdlib Require Import List String Ascii Bool Arith ZArith NArith Lia.
From Stdlib Require Import Strings.Byte.
From Stdlib Require Import DecimalString.
Import ListNotations.
Open Scope string_scope.
Open Scope list_scope.

Infix "+++" := String.append (at level 60, right associativity).

(** ** Exceptions *)

(** The exception classes that the code names or can meet.  Each carries
    the text that [str(e)] gives.  [UnicodeDecodeError] is a subclass of
    [ValueError]; no other class here derives from [ValueError] or from
    [ApiException]. *)
Inductive exn : Type :=
| ValueError (msg : string)
| ApiException (msg : string)          (* kubernetes.client.rest.ApiException *)
| RuntimeError (msg : string)
| AttributeError (msg : string)
| TypeError (msg : string)
| IndexError (msg : string)
| UnicodeDecodeError (msg : string)    (* a ValueError *)
| KeyboardInterrupt
| OtherError (cls msg : string).       (* a class outside both hierarchies,
                                          e.g. urllib3's ProtocolError *)

Definition str_exn (e : exn) : string :=
  match e with
  | ValueError m | ApiException m | RuntimeError m | AttributeError m
  | TypeError m | IndexError m | UnicodeDecodeError m => m
  | KeyboardInterrupt => ""
  | OtherError _ m => m
  end.

Inductive result (A : Type) : Type :=
| Ret (a : A)
| Raise (e : exn).
Arguments Ret {A} a.
Arguments Raise {A} e.

(** ** Kubernetes objects, with the fields the code reads *)

Definition bytes := list byte.

(** [V1LoadBalancerIngress]: both fields are optional in the client. *)
Record V1LoadBalancerIngress := {
  ip : option string;
  hostname : option string }.

Record V1LoadBalancerStatus := { ingress : option (list V1LoadBalancerIngress) }.
Record V1ServiceStatus := { load_balancer : V1LoadBalancerStatus }.
Record V1Service := { svc_status : V1ServiceStatus }.

Record V1ContainerStateTerminated := {
  reason : option string;
  message : option string }.

Record V1ContainerStateWaiting := {
  waiting_reason : option string;
  waiting_message : option string }.

(** [V1ContainerState] has three optional members; the cluster sets at most
    one of them. *)
Record V1ContainerState := {
  running : option unit;
  terminated : option V1ContainerStateTerminated;
  waiting : option V1ContainerStateWaiting }.

Record V1ContainerStatus := {
  ready : bool;
  state : V1ContainerState }.

Inductive pod_phase := Pending | Running | Succeeded | Failed | Unknown.

Definition phase_str (p : pod_phase) : string :=
  match p with
  | Pending => "Pending" | Running => "Running" | Succeeded => "Succeeded"
  | Failed => "Failed" | Unknown => "Unknown"
  end.

Definition phase_eqb (p q : pod_phase) : bool :=
  match p, q with
  | Pending, Pending | Running, Running | Succeeded, Succeeded
  | Failed, Failed | Unknown, Unknown => true
  | _, _ => false
  end.

(** [container_statuses] is [None] until the pod has been scheduled. *)
Record V1PodStatus := {
  phase : pod_phase;
  container_statuses : option (list V1ContainerStatus) }.

Record V1ObjectMeta := { name : string }.

Record V1Pod := {
  metadata : V1ObjectMeta;
  status : V1PodStatus }.

(** ** Watch events *)

Inductive event_type := ADDED | MODIFIED | DELETED.

Definition type_str (t : event_type) : string :=
  match t with ADDED => "ADDED" | MODIFIED => "MODIFIED" | DELETED => "DELETED" end.

Definition type_eqb (a b : event_type) : bool :=
  match a, b with
  | ADDED, ADDED | MODIFIED, MODIFIED | DELETED, DELETED => true
  | _, _ => false
  end.

(** [event['type']] and [event['object']]. *)
Record event (A : Type) := {
  ev_type : event_type;
  ev_object : A }.
Arguments ev_type {A} e.
Arguments ev_object {A} e.

(** How a generator stops: it is exhausted, or the pull raises. *)
Inductive stream_end :=
| Exhausted
| Fails (e : exn).

(** What a generator delivers over one run: finitely many items, then its
    end.  A watch that stays silent for ever has no counterpart here. *)
Record stream (A : Type) := {
  delivered : list A;
  ending : stream_end }.
Arguments delivered {A} s.
Arguments ending {A} s.

(** The object [read_namespaced_pod_log(..., _preload_content=False)]
    returns: the chunks [stream(amt)] will yield. *)
Record HTTPResponse := { body : stream bytes }.

(** ** Effects *)

Inductive level := DEBUG | INFO | WARNING | ERROR.

(** Values handed to [logger.*] for lazy [%s] formatting. *)
Inductive pyval :=
| VStr (s : string)
| VOptStr (s : option string)     (* a string or [None] *)
| VBool (b : bool)
| VService (s : V1Service).

Inductive list_fn := list_namespaced_service | list_namespaced_pod.

Inductive effect :=
| Print (line : string)
| Logger (l : level) (fmt : string) (args : list pyval)
| WatchStream (f : list_fn) (namespace label_selector : string)
| ReadPodLog (pod_name namespace : string) (follow : bool) (container : string)
| StreamBody (resp : HTTPResponse) (amt : Z)
| ReleaseConn (resp : HTTPResponse).

(** ** The monad: a trace of effects and a value or an exception *)

Definition M (A : Type) : Type := (list effect * result A)%type.

Definition ret {A} (a : A) : M A := ([], Ret a).
Definition raise {A} (e : exn) : M A := ([], Raise e).
Definition emit (f : effect) : M unit := ([f], Ret tt).
Definition lift {A} (r : result A) : M A := ([], r).

Definition bind {A B} (m : M A) (k : A -> M B) : M B :=
  match m with
  | (t, Ret a) => let (t', r) := k a in (t ++ t', r)
  | (t, Raise e) => (t, Raise e)
  end.

Notation "x <- m ;; k" := (bind m (fun x => k))
  (at level 61, m at next level, right associativity).
Notation "m ;; k" := (bind m (fun _ => k))
  (at level 61, right associativity).

(** [try: m  except ...: handler]: the handler decides per exception, and
    re-raises what no clause catches. *)
Definition try_except {A} (m : M A) (handler : exn -> M A) : M A :=
  match m with
  | (t, Ret a) => (t, Ret a)
  | (t, Raise e) => let (t', r) := handler e in (t ++ t', r)
  end.

(** [try: m  finally: fin]: [fin] runs on every exit; an exception of [m]
    is re-raised after it unless [fin] itself raises. *)
Definition try_finally {A} (m : M A) (fin : M unit) : M A :=
  match m with
  | (t, r) =>
      match fin with
      | (t', Ret _) => (t ++ t', r)
      | (t', Raise e') => (t ++ t', Raise e')
      end
  end.

(** What one iteration of a [for] body asks for next. *)
Inductive flow (R : Type) :=
| Next                (* fall through or [continue] *)
| Stop (r : R).       (* [break] or [return], with what is carried out *)
Arguments Next {R}.
Arguments Stop {R} r.

(** [for x in gen: body]: [None] when the generator is exhausted. *)
Fixpoint for_each {A R} (loop_body : A -> M (flow R)) (items : list A)
         (e : stream_end) : M (option R) :=
  match items with
  | [] => match e with
          | Exhausted => ret None
          | Fails x => raise x
          end
  | x :: rest =>
      f <- loop_body x ;;
      match f with
      | Next => for_each loop_body rest e
      | Stop r => ret (Some r)
      end
  end.

Definition for_stream {A R} (loop_body : A -> M (flow R)) (s : stream A) : M (option R) :=
  for_each loop_body (delivered s) (ending s).

(** ** Python built-ins the code uses *)

(** [sep.join(parts)]. *)
Fixpoint join (sep : string) (parts : list string) : string :=
  match parts with
  | [] => ""
  | [p] => p
  | p :: rest => p +++ sep +++ join sep rest
  end.

(** A [dict] with string keys and values, in its iteration order. *)
Definition dict := list (string * string).

(** ["{}".format(v)] for a string or [None]. *)
Definition format_opt (v : option string) : string :=
  match v with
  | Some s => s
  | None => "None"
  end.

(** Truth value of a string or [None]. *)
Definition truthy (v : option string) : bool :=
  match v with
  | Some s => negb (s =? "")%string
  | None => false
  end.

(** [a or b]. *)
Definition py_or (a b : option string) : option string :=
  if truthy a then a else b.

(** [', '.join("{}={}".format(k, v) for (k, v) in selectors.items())];
    [selectors] defaults to [None], which has no [items]. *)
Definition label_selector (selectors : option dict) : M string :=
  match selectors with
  | None => raise (AttributeError "'NoneType' object has no attribute 'items'")
  | Some d => ret (join ", " (map (fun kv => fst kv +++ "=" +++ snd kv) d))
  end.

(** The two [except] clauses shared by both watch loops: [except
    ValueError] takes [ValueError] and its subclasses, [except
    client.rest.ApiException] takes [ApiException]; both log the same
    line. *)
Definition watch_handler {A} (who : string) (e : exn) : M (option A) :=
  match e with
  | ValueError _ | UnicodeDecodeError _ | ApiException _ =>
      emit (Logger ERROR ("error getting status for " +++ who +++ " " +++ str_exn e) []) ;;
      ret None
  | _ => raise e
  end.

(** ** [get_service_external_endpoint] *)

Definition ingress_url (i : V1LoadBalancerIngress) : string :=
  "http://" +++ format_opt (py_or (ip i) (hostname i)) +++ ":5000/predict".

(** The body of the [for event in w.stream(...)] loop. *)
Definition service_event (ev : event V1Service) : M (flow string) :=
  let svc := ev_object ev in
  emit (Logger DEBUG "Event: %s %s" [VStr (type_str (ev_type ev)); VService svc]) ;;
  let ing := ingress (load_balancer (svc_status svc)) in
  match ing with
  | Some (i :: _) => ret (Stop (ingress_url i))
  | _ => ret Next
  end.

(** [w] is what [w.stream(v1.list_namespaced_service, ...)] delivers.  The
    result [None] is Python's [None]: the function fell off its end. *)
Definition get_service_external_endpoint (name namespace : string)
    (selectors : option dict) (w : stream (event V1Service)) : M (option string) :=
  label_selector_str <- label_selector selectors ;;
  emit (Print "Waiting for prediction endpoint to come up...") ;;
  try_except
    (emit (WatchStream list_namespaced_service namespace label_selector_str) ;;
     for_stream service_event w)
    (watch_handler name).

(** ** [bytes.rstrip()] and [bytes.decode('utf8')] *)

(** ASCII whitespace, as [bytes.rstrip] with no argument strips it. *)
Definition is_space (b : byte) : bool :=
  match b with
  | x20 | x09 | x0a | x0b | x0c | x0d => true
  | _ => false
  end.

Fixpoint rstrip (bs : bytes) : bytes :=
  match bs with
  | [] => []
  | b :: rest =>
      match rstrip rest with
      | [] => if is_space b then [] else [b]
      | kept => b :: kept
      end
  end.

Definition between (lo hi : N) (b : byte) : bool :=
  (lo <=? Byte.to_N b)%N && (Byte.to_N b <=? hi)%N.

Definition cont (b : byte) : bool := between 128 191 b.

(** Well-formed UTF-8 (no overlong forms, no surrogates, nothing above
    U+10FFFF), which is what the strict decoder accepts. *)
Fixpoint utf8_valid (bs : bytes) : bool :=
  match bs with
  | [] => true
  | b1 :: r1 =>
      if between 0 127 b1 then utf8_valid r1
      else match r1 with
      | [] => false
      | b2 :: r2 =>
          if between 194 223 b1 then cont b2 && utf8_valid r2
          else match r2 with
          | [] => false
          | b3 :: r3 =>
              if between 224 224 b1 then between 160 191 b2 && cont b3 && utf8_valid r3
              else if between 225 236 b1 then cont b2 && cont b3 && utf8_valid r3
              else if between 237 237 b1 then between 128 159 b2 && cont b3 && utf8_valid r3
              else if between 238 239 b1 then cont b2 && cont b3 && utf8_valid r3
              else match r3 with
              | [] => false
              | b4 :: r4 =>
                  if between 240 240 b1 then between 144 191 b2 && cont b3 && cont b4 && utf8_valid r4
                  else if between 241 243 b1 then cont b2 && cont b3 && cont b4 && utf8_valid r4
                  else if between 244 244 b1 then between 128 143 b2 && cont b3 && cont b4 && utf8_valid r4
                  else false
              end
          end
      end
  end.

(** The second byte that may follow a three-byte and a four-byte lead. *)
Definition second_of_three (b1 b2 : byte) : bool :=
  if between 224 224 b1 then between 160 191 b2
  else if between 237 237 b1 then between 128 159 b2
  else cont b2.

Definition second_of_four (b1 b2 : byte) : bool :=
  if between 240 240 b1 then between 144 191 b2
  else if between 244 244 b1 then between 128 143 b2
  else cont b2.

(** Where the strict decoder of Python 3 stops, from position [pos] on:
    the start and end (exclusive) of the offending bytes and the reason
    it gives. *)
Fixpoint utf8_failure (pos : nat) (bs : bytes) : option (nat * nat * string) :=
  match bs with
  | [] => None
  | b1 :: r1 =>
      if between 0 127 b1 then utf8_failure (pos + 1) r1
      else if between 194 223 b1 then
        match r1 with
        | [] => Some (pos, pos + 1, "unexpected end of data")
        | b2 :: r2 =>
            if cont b2 then utf8_failure (pos + 2) r2
            else Some (pos, pos + 1, "invalid continuation byte")
        end
      else if between 224 239 b1 then
        match r1 with
        | [] => Some (pos, pos + 1, "unexpected end of data")
        | b2 :: r2 =>
            if negb (second_of_three b1 b2)
            then Some (pos, pos + 1, "invalid continuation byte")
            else match r2 with
                 | [] => Some (pos, pos + 2, "unexpected end of data")
                 | b3 :: r3 =>
                     if cont b3 then utf8_failure (pos + 3) r3
                     else Some (pos, pos + 2, "invalid continuation byte")
                 end
        end
      else if between 240 244 b1 then
        match r1 with
        | [] => Some (pos, pos + 1, "unexpected end of data")
        | b2 :: r2 =>
            if negb (second_of_four b1 b2)
            then Some (pos, pos + 1, "invalid continuation byte")
            else match r2 with
                 | [] => Some (pos, pos + 2, "unexpected end of data")
                 | b3 :: r3 =>
                     if negb (cont b3)
                     then Some (pos, pos + 2, "invalid continuation byte")
                     else match r3 with
                          | [] => Some (pos, pos + 3, "unexpected end of data")
                          | b4 :: r4 =>
                              if cont b4 then utf8_failure (pos + 4) r4
                              else Some (pos, pos + 3, "invalid continuation byte")
                          end
                 end
        end
      else Some (pos, pos + 1, "invalid start byte")
  end.

Definition hex_digit (n : N) : ascii :=
  match n with
  | 0%N => "0" | 1%N => "1" | 2%N => "2" | 3%N => "3" | 4%N => "4"
  | 5%N => "5" | 6%N => "6" | 7%N => "7" | 8%N => "8" | 9%N => "9"
  | 10%N => "a" | 11%N => "b" | 12%N => "c" | 13%N => "d" | 14%N => "e"
  | _ => "f"
  end%char.

(** [%02x] of a byte. *)
Definition hex_byte (b : byte) : string :=
  String (hex_digit (Byte.to_N b / 16)) (String (hex_digit (Byte.to_N b mod 16)) "").

(** [%d] of a position. *)
Definition decimal (n : nat) : string := NilZero.string_of_uint (Nat.to_uint n).

(** [str(e)] of the [UnicodeDecodeError] that [bs.decode('utf8')] raises
    under Python 3. *)
Definition decode_error_text (bs : bytes) : string :=
  match utf8_failure 0 bs with
  | Some (start, stop, why) =>
      if Nat.eqb stop (start + 1) then
        "'utf-8' codec can't decode byte 0x" +++ hex_byte (nth start bs x00)
          +++ " in position " +++ decimal start +++ ": " +++ why
      else
        "'utf-8' codec can't decode bytes in position " +++ decimal start
          +++ "-" +++ decimal (stop - 1) +++ ": " +++ why
  | None => ""
  end.

(** A Python [str] is kept as its UTF-8 bytes, so decoding is a check. *)
Definition decode_utf8 (bs : bytes) : M string :=
  if utf8_valid bs then ret (string_of_list_byte bs)
  else raise (UnicodeDecodeError (decode_error_text bs)).

(** ** [log] *)

Definition MAX_STREAM_BYTES : Z := 1024.

(** The signature of [v1.read_namespaced_pod_log(name, namespace,
    follow=..., container=...)] as the code calls it: the cluster answers
    with a response or the call raises. *)
Definition pod_log_api := string -> string -> bool -> string -> result HTTPResponse.

Definition read_namespaced_pod_log (api : pod_log_api)
    (pod_name namespace : string) (follow : bool) (container : string) : M HTTPResponse :=
  emit (ReadPodLog pod_name namespace follow container) ;;
  lift (api pod_name namespace follow container).

(** [pod.status.container_statuses[0]]. *)
Definition first_status (pod : V1Pod) : M V1ContainerStatus :=
  match container_statuses (status pod) with
  | None => raise (TypeError "'NoneType' object is not subscriptable")
  | Some [] => raise (IndexError "list index out of range")
  | Some (c :: _) => ret c
  end.

(** [c.state.terminated.reason] and [.message]: the attribute access on
    [terminated] comes first. *)
Definition terminated_of (c : V1ContainerStatus) : M V1ContainerStateTerminated :=
  match terminated (state c) with
  | None => raise (AttributeError "'NoneType' object has no attribute 'reason'")
  | Some t => ret t
  end.

Definition is_some {A} (o : option A) : bool :=
  match o with Some _ => true | None => false end.

(** [a and b], [a or b] with Python's evaluation order: the right operand
    runs only if the left one does not decide. *)
Definition and_then (a : bool) (b : M bool) : M bool :=
  if a then b else ret false.

Definition or_else (a : M bool) (b : M bool) : M bool :=
  x <- a ;; if x then ret true else b.

(** The body of the [for event in w.stream(...)] loop of [log]. *)
Definition pod_event (api : pod_log_api) (namespace container : string) (follow : bool)
    (ev : event V1Pod) : M (flow HTTPResponse) :=
  let pod := ev_object ev in
  let ph := phase (status pod) in
  let pod_name := name (metadata pod) in
  emit (Logger DEBUG "Event: %s %s %s"
          [VStr (type_str (ev_type ev)); VStr pod_name; VStr (phase_str ph)]) ;;
  if phase_eqb ph Pending then
    emit (Logger WARNING ("Waiting for " +++ pod_name +++ " to start...") []) ;;
    ret Next
  else
    started <- or_else (and_then (phase_eqb ph Running)
                                 (c <- first_status pod ;; ret (ready c)))
                       (ret (phase_eqb ph Succeeded)) ;;
    if started then
      c <- first_status pod ;;
      emit (Logger INFO "Pod started running %s" [VBool (ready c)]) ;;
      tail <- read_namespaced_pod_log api pod_name namespace follow container ;;
      ret (Stop tail)
    else
      failed <- or_else (ret (type_eqb (ev_type ev) DELETED))
                  (or_else (ret (phase_eqb ph Failed))
                           (c <- first_status pod ;; ret (is_some (waiting (state c))))) ;;
      if failed then
        c <- first_status pod ;;
        t <- terminated_of c ;;
        c' <- first_status pod ;;
        t' <- terminated_of c' ;;
        emit (Logger ERROR "Failed to launch %s, reason: %s, message: %s"
                [VStr pod_name; VOptStr (reason t); VOptStr (message t')]) ;;
        tail <- read_namespaced_pod_log api pod_name namespace follow container ;;
        ret (Stop tail)
      else
        ret Next.

(** The body of [for chunk in tail.stream(MAX_STREAM_BYTES)]. *)
Definition print_chunk (chunk : bytes) : M (flow unit) :=
  text <- decode_utf8 (rstrip chunk) ;;
  emit (Print text) ;;
  ret Next.

(** [if tail: try: ... finally: tail.release_conn()].  [tail] starts as
    the empty string, which is false; a response object is true. *)
Definition relay (tail : option HTTPResponse) : M unit :=
  match tail with
  | None => ret tt
  | Some resp =>
      try_finally
        (emit (StreamBody resp MAX_STREAM_BYTES) ;;
         for_stream print_chunk (body resp) ;;
         ret tt)
        (emit (ReleaseConn resp))
  end.

(** [w] is what [w.stream(v1.list_namespaced_pod, ...)] delivers and [api]
    is the cluster's answer to [read_namespaced_pod_log]. *)
Definition log (api : pod_log_api) (name namespace : string) (selectors : option dict)
    (container : string) (follow : bool) (w : stream (event V1Pod)) : M unit :=
  label_selector_str <- label_selector selectors ;;
  tail <- try_except
            (emit (WatchStream list_namespaced_pod namespace label_selector_str) ;;
             for_stream (pod_event api namespace container follow) w)
            (watch_handler name) ;;
  relay tail.

(** ** Custom-resource creation *)

Section CustomResources.

(** [fairing.constants.constants] is not part of this file; its values
    are taken as given. *)
Variables TF_JOB_GROUP TF_JOB_VERSION TF_JOB_PLURAL : string.
Variables KFSERVING_GROUP KFSERVING_VERSION KFSERVING_PLURAL : string.

(** The manifest handed to the API and the object it answers with. *)
Variables manifest api_object : Type.

(** [api_instance.create_namespaced_custom_object(group, version,
    namespace, plural, body)]. *)
Definition custom_objects_api :=
  string -> string -> string -> string -> manifest -> result api_object.

Definition create_tf_job (api : custom_objects_api) (namespace : string)
    (job : manifest) : M api_object :=
  try_except
    (lift (api TF_JOB_GROUP TF_JOB_VERSION namespace TF_JOB_PLURAL job))
    (fun e =>
       match e with
       | ApiException _ =>
           raise (RuntimeError ("Failed to create TFJob. Perhaps the CRD TFJob version "
                                +++ TF_JOB_VERSION +++ " in not installed?"))
       | _ => raise e
       end).

Definition create_kfserving (api : custom_objects_api) (namespace : string)
    (kfservice : manifest) : M api_object :=
  try_except
    (lift (api KFSERVING_GROUP KFSERVING_VERSION namespace KFSERVING_PLURAL kfservice))
    (fun e =>
       match e with
       | ApiException _ =>
           raise (RuntimeError ("Failed to create KFService. Perhaps the CRD KFServing version "
                                +++ KFSERVING_VERSION +++ " is not installed?"))
       | _ => raise e
       end).

End CustomResources.

(** ** Reading a trace *)

Definition is_open (f : effect) : bool :=
  match f with ReadPodLog _ _ _ _ => true | _ => false end.

Definition is_pull (f : effect) : bool :=
  match f with Logger DEBUG _ _ => true | _ => false end.

(** How many times a log handle was asked for. *)
Definition opens (t : list effect) : nat := List.length (filter is_open t).

(** How many events were taken from the watch: each one is logged at
    [DEBUG] first, and nothing else is. *)
Definition pulled (t : list effect) : nat := List.length (filter is_pull t).

Definition released (t : list effect) : list HTTPResponse :=
  flat_map (fun f => match f with ReleaseConn r => [r] | _ => [] end) t.

Definition printed (t : list effect) : list string :=
  flat_map (fun f => match f with Print s => [s] | _ => [] end) t.

(** The trace with the text of every [ERROR] diagnostic blanked. *)
Definition blank_error (f : effect) : effect :=
  match f with
  | Logger ERROR _ _ => Logger ERROR "" []
  | _ => f
  end.

(** ** Predicates on events, as the specification words them *)

Definition ingress_of (ev : event V1Service) : option (list V1LoadBalancerIngress) :=
  ingress (load_balancer (svc_status (ev_object ev))).

(** The ingress list is empty or absent. *)
Definition waiting_for_ingress (ev : event V1Service) : bool :=
  match ingress_of ev with
  | Some (_ :: _) => false
  | _ => true
  end.

Definition pod_phase_of (ev : event V1Pod) : pod_phase := phase (status (ev_object ev)).

Definition statuses_of (ev : event V1Pod) : option (list V1ContainerStatus) :=
  container_statuses (status (ev_object ev)).

Definition has_first_status (ev : event V1Pod) : bool :=
  match statuses_of ev with
  | Some (_ :: _) => true
  | _ => false
  end.

(** [phase=Running] with the first container status ready, or
    [phase=Succeeded]. *)
Definition log_eligible (ev : event V1Pod) : bool :=
  match pod_phase_of ev, statuses_of ev with
  | Succeeded, _ => true
  | Running, Some (c :: _) => ready c
  | _, _ => false
  end.

(** The first container status reports a waiting or terminated state. *)
Definition failing_state (ev : event V1Pod) : bool :=
  match statuses_of ev with
  | Some (c :: _) => is_some (waiting (state c)) || is_some (terminated (state c))
  | _ => false
  end.

(** A [DELETED] event, [phase=Failed], or a failing lifecycle state. *)
Definition failure_event (ev : event V1Pod) : bool :=
  type_eqb (ev_type ev) DELETED || phase_eqb (pod_phase_of ev) Failed || failing_state ev.

(** ** The serialization the specification describes for selectors:
    [key=value] pairs in the order of their keys, joined by [sep]. *)

Fixpoint insert_by_key (kv : string * string) (sorted : dict) : dict :=
  match sorted with
  | [] => [kv]
  | kv' :: rest =>
      if String.leb (fst kv) (fst kv') then kv :: sorted
      else kv' :: insert_by_key kv rest
  end.

Definition sort_by_key (d : dict) : dict := fold_right insert_by_key [] d.

Definition sorted_selector (sep : string) (d : dict) : string :=
  join sep (map (fun kv => fst kv +++ "=" +++ snd kv) (sort_by_key d)).

(** ** Names for what the two loops log, ask and come to *)

Definition service_debug (ev : event V1Service) : effect :=
  Logger DEBUG "Event: %s %s" [VStr (type_str (ev_type ev)); VService (ev_object ev)].

Definition pod_debug (ev : event V1Pod) : effect :=
  Logger DEBUG "Event: %s %s %s"
    [VStr (type_str (ev_type ev)); VStr (name (metadata (ev_object ev)));
     VStr (phase_str (pod_phase_of ev))].

Definition pod_warning (ev : event V1Pod) : effect :=
  Logger WARNING ("Waiting for " +++ name (metadata (ev_object ev)) +++ " to start...") [].

(** A diagnostic above [DEBUG]. *)
Definition is_notice (f : effect) : bool :=
  match f with
  | Logger INFO _ _ | Logger WARNING _ _ | Logger ERROR _ _ => true
  | _ => false
  end.

(** The call that asks for the log handle of the pod of [ev], and what
    the loop body makes of the answer. *)
Definition open_effect (namespace container : string) (follow : bool)
    (ev : event V1Pod) : effect :=
  ReadPodLog (name (metadata (ev_object ev))) namespace follow container.

Definition open_answer (api : pod_log_api) (namespace container : string) (follow : bool)
    (ev : event V1Pod) : result (flow HTTPResponse) :=
  match api (name (metadata (ev_object ev))) namespace follow container with
  | Ret resp => Ret (Stop resp)
  | Raise e => Raise e
  end.

(** The four shapes one iteration can take. *)
Inductive pod_step (api : pod_log_api) (namespace container : string) (follow : bool)
    (ev : event V1Pod) : M (flow HTTPResponse) -> Prop :=
| step_pending :
    pod_step api namespace container follow ev ([pod_debug ev; pod_warning ev], Ret Next)
| step_wait :
    pod_step api namespace container follow ev ([pod_debug ev], Ret Next)
| step_open (notice : effect) :
    is_notice notice = true ->
    pod_step api namespace container follow ev
      ([pod_debug ev; notice; open_effect namespace container follow ev],
       open_answer api namespace container follow ev)
| step_crash (e : exn) :
    pod_step api namespace container follow ev ([pod_debug ev], Raise e).

Definition stream_effect (resp : HTTPResponse) : effect := StreamBody resp MAX_STREAM_BYTES.

(** The exceptions the two [except] clauses take: [ValueError] with its
    subclass [UnicodeDecodeError], and [ApiException]. *)
Definition caught (e : exn) : bool :=
  match e with
  | ValueError _ | UnicodeDecodeError _ | ApiException _ => true
  | _ => false
  end.

Definition status_error (who : string) (e : exn) : effect :=
  Logger ERROR ("error getting status for " +++ who +++ " " +++ str_exn e) [].

Definition selector_string (d : dict) : string :=
  join ", " (map (fun kv => fst kv +++ "=" +++ snd kv) d).

(** What the watch loop of [log] can come to: it never asked for a handle
    and carries none out, or its last act was the one request. *)
Inductive watch_outcome (api : pod_log_api) (namespace container : string) (follow : bool) :
    M (option HTTPResponse) -> Prop :=
| watch_no_open t r :
    opens t = 0 -> released t = [] -> (forall resp, r <> Ret (Some resp)) ->
    watch_outcome api namespace container follow (t, r)
| watch_opened t ev :
    opens t = 0 -> released t = [] ->
    watch_outcome api namespace container follow
      (t ++ [open_effect namespace container follow ev],
       match api (name (metadata (ev_object ev))) namespace follow container with
       | Ret resp => Ret (Some resp)
       | Raise e => Raise e
       end).

(** A snapshot on which the pod is still on its way: no failure event, not
    yet eligible for logs, and, once it has left [Pending], carrying a
    first container status. *)
Definition still_starting (ev : event V1Pod) : bool :=
  negb (failure_event ev) && negb (log_eligible ev)
  && (phase_eqb (pod_phase_of ev) Pending || has_first_status ev).

Definition started_info (c : V1ContainerStatus) : effect :=
  Logger INFO "Pod started running %s" [VBool (ready c)].

Definition launch_error (ev : event V1Pod) (t : V1ContainerStateTerminated) : effect :=
  Logger ERROR "Failed to launch %s, reason: %s, message: %s"
    [VStr (name (metadata (ev_object ev))); VOptStr (reason t); VOptStr (message t)].

(** What follows the watch loop of [log], given how the loop ended. *)
Definition after_watch (who : string) (r : result (option HTTPResponse)) : list effect :=
  match r with
  | Ret tail => fst (relay tail)
  | Raise e => if caught e then [status_error who e] else []
  end.

(** ** Snapshots and answers for concrete runs *)

Definition service_snapshot (ty : event_type) (ing : option (list V1LoadBalancerIngress)) :
    event V1Service :=
  {| ev_type := ty;
     ev_object := {| svc_status := {| load_balancer := {| ingress := ing |} |} |} |}.

Definition pod_snapshot (ty : event_type) (pod_name : string) (ph : pod_phase)
    (cs : option (list V1ContainerStatus)) : event V1Pod :=
  {| ev_type := ty;
     ev_object := {| metadata := {| name := pod_name |};
                     status := {| phase := ph; container_statuses := cs |} |} |}.

Definition state_running : V1ContainerState :=
  {| running := Some tt; terminated := None; waiting := None |}.

Definition state_waiting (why : string) : V1ContainerState :=
  {| running := None; terminated := None;
     waiting := Some {| waiting_reason := Some why; waiting_message := None |} |}.

Definition state_terminated (why what : string) : V1ContainerState :=
  {| running := None;
     terminated := Some {| reason := Some why; message := Some what |};
     waiting := None |}.

(** A log body of two chunks, read to its end. *)
Definition whole_response : HTTPResponse :=
  {| body := {| delivered := [list_byte_of_string "epoch 1 "; list_byte_of_string "epoch 2"];
                ending := Exhausted |} |}.

(** A log body whose connection breaks after the first chunk. *)
Definition broken_response : HTTPResponse :=
  {| body := {| delivered := [list_byte_of_string "epoch 1 "];
                ending := Fails (OtherError "ProtocolError" "Connection broken") |} |}.

Definition answer_with (resp : HTTPResponse) : pod_log_api := fun _ _ _ _ => Ret resp.

Definition app_predictor : dict := [("app", "predictor")].

(** Pending, Pending, Running(ready=false), Running(ready=true). *)
Definition slow_start : list (event V1Pod) :=
  [pod_snapshot ADDED "train-0" Pending None;
   pod_snapshot MODIFIED "train-0" Pending None;
   pod_snapshot MODIFIED "train-0" Running (Some [{| ready := false; state := state_running |}])].

Definition now_ready : event V1Pod :=
  pod_snapshot MODIFIED "train-0" Running (Some [{| ready := true; state := state_running |}]).

Definition oom_killed : event V1Pod :=
  pod_snapshot MODIFIED "train-0" Failed
    (Some [{| ready := false;
              state := state_terminated "OOMKilled" "Container exceeded its memory limit" |}]).

Definition unsorted_selectors : dict := [("tier", "web"); ("app", "predictor")].

(** ** [secret_exists] *)

Record V1Secret := { secret_metadata : V1ObjectMeta }.

(** [V1SecretList]: what [list_namespaced_secret] answers with. *)
Record V1SecretList := { items : list V1Secret }.

(** [client.CoreV1Api().list_namespaced_secret(namespace)]. *)
Definition secret_list_api := string -> result V1SecretList.

(** [secret.metadata.name]. *)
Definition secret_name (secret : V1Secret) : string := name (secret_metadata secret).

(** [name in secret_names] compares with [==]. *)
Definition secret_exists (api : secret_list_api) (name namespace : string) : M bool :=
  secrets <- lift (api namespace) ;;
  let secret_names := map secret_name (items secrets) in
  ret (existsb (fun n => (n =? name)%string) secret_names).

(** ** More ways to read a trace *)

Definition is_error (f : effect) : bool :=
  match f with Logger ERROR _ _ => true | _ => false end.

(** How many [ERROR] diagnostics were logged. *)
Definition errors (t : list effect) : nat := List.length (filter is_error t).

(** The handle requests of a trace, with their arguments. *)
Definition requests (t : list effect) : list (string * string * bool * string) :=
  flat_map (fun f => match f with
                     | ReadPodLog p n fl c => [(p, n, fl, c)]
                     | _ => []
                     end) t.

(** What [print_chunk] prints for a chunk that decodes. *)
Definition line_of (chunk : bytes) : string := string_of_list_byte (rstrip chunk).

Definition ends_in_space (bs : bytes) : bool :=
  match rev bs with
  | b :: _ => is_space b
  | [] => false
  end.

Definition is_ascii (b : byte) : bool := between 0 127 b.

(** The exception of [bs.decode('utf8')] on bytes that do not decode. *)
Definition decode_error (bs : bytes) : exn := UnicodeDecodeError (decode_error_text bs).

(** The answer of the cluster for the pod of [ev], as the watch loop of
    [log] carries it out. *)
Definition handle_for (api : pod_log_api) (namespace container : string) (follow : bool)
    (ev : event V1Pod) : result (option HTTPResponse) :=
  match api (name (metadata (ev_object ev))) namespace follow container with
  | Ret resp => Ret (Some resp)
  | Raise x => Raise x
  end.

(** What holds of every run of the watch loop of [log]: it prints and
    releases nothing; it makes no handle request and carries no handle
    out, or it made one request, for the pod of a delivered event, and
    ended with the cluster's answer. *)
Definition loop_shape (api : pod_log_api) (namespace container : string) (follow : bool)
    (evs : list (event V1Pod)) (run : M (option HTTPResponse)) : Prop :=
  printed (fst run) = [] /\ released (fst run) = []
  /\ ((requests (fst run) = [] /\ forall resp, snd run <> Ret (Some resp))
      \/ exists ev,
          In ev evs
          /\ requests (fst run)
             = [(name (metadata (ev_object ev)), namespace, follow, container)]
          /\ snd run = handle_for api namespace container follow ev).

(** A log body in which a two-byte character is cut by a chunk boundary. *)
Definition split_response : HTTPResponse :=
  {| body := {| delivered := [list_byte_of_string "ok "; [x63; x61; x66; xc3]; [xa9]];
                ending := Exhausted |} |}.

Definition refuse_with (x : exn) : pod_log_api := fun _ _ _ _ => Raise x.

(** A snapshot whose first container has terminated while the pod is
    still [Running] or [Unknown], on an event that is not [DELETED]. *)
Definition terminated_unnoticed (ev : event V1Pod) : bool :=
  negb (type_eqb (ev_type ev) DELETED)
  && (phase_eqb (pod_phase_of ev) Running || phase_eqb (pod_phase_of ev) Unknown)
  && match statuses_of ev with
     | Some (c :: _) =>
         negb (ready c) && is_some (terminated (state c)) && negb (is_some (waiting (state c)))
     | _ => false
     end.


Definition type_error : exn := TypeError "'NoneType' object is not subscriptable".

Definition index_error : exn := IndexError "list index out of range".

(** * Properties *)

(** ** The monad and the loop *)

Lemma bind_ret {A B} (a : A) (k : A -> M B) : bind (ret a) k = k a.
Proof. unfold bind, ret. destruct (k a). reflexivity. Qed.

Lemma bind_emit {B} (f : effect) (k : unit -> M B) :
  bind (emit f) k = (f :: fst (k tt), snd (k tt)).
Proof. unfold bind, emit. destruct (k tt). reflexivity. Qed.

Lemma opens_app (t u : list effect) : opens (t ++ u) = opens t + opens u.
Proof. unfold opens. now rewrite filter_app, length_app. Qed.

Lemma pulled_app (t u : list effect) : pulled (t ++ u) = pulled t + pulled u.
Proof. unfold pulled. now rewrite filter_app, length_app. Qed.

Lemma released_app (t u : list effect) : released (t ++ u) = released t ++ released u.
Proof. unfold released. apply flat_map_app. Qed.

Lemma printed_app (t u : list effect) : printed (t ++ u) = printed t ++ printed u.
Proof. unfold printed. apply flat_map_app. Qed.

Section Loops.

Context {A R : Type}.
Variable loop_body : A -> M (flow R).

(** Items on which the body falls through are passed one by one. *)
Lemma for_each_skips (pre rest : list A) (e : stream_end) :
  Forall (fun x => snd (loop_body x) = Ret Next) pre ->
  for_each loop_body (pre ++ rest) e =
    (flat_map (fun x => fst (loop_body x)) pre ++ fst (for_each loop_body rest e),
     snd (for_each loop_body rest e)).
Proof.
  induction 1 as [|x pre Hx _ IH]; simpl.
  - now destruct (for_each loop_body rest e).
  - destruct (loop_body x) as [t r]. simpl in Hx. subst r. simpl.
    rewrite IH. simpl. now rewrite app_assoc.
Qed.

(** The loop leaves at the first item whose body stops; later items are
    never pulled. *)
Lemma for_each_stops (x : A) (rest : list A) (e : stream_end) (r : R) :
  snd (loop_body x) = Ret (Stop r) ->
  for_each loop_body (x :: rest) e = (fst (loop_body x), Ret (Some r)).
Proof.
  intros Hx. simpl. destruct (loop_body x) as [t q]. simpl in Hx. subst q.
  simpl. now rewrite app_nil_r.
Qed.

Lemma for_each_all_skipped (items : list A) (e : stream_end) :
  Forall (fun x => snd (loop_body x) = Ret Next) items ->
  for_each loop_body items e =
    (flat_map (fun x => fst (loop_body x)) items,
     match e with Exhausted => Ret None | Fails x => Raise x end).
Proof.
  intros H. rewrite <- (app_nil_r items) at 1. rewrite (for_each_skips _ _ _ H).
  destruct e; simpl; now rewrite app_nil_r.
Qed.

Lemma for_each_raises (x : A) (rest : list A) (e : stream_end) (err : exn) :
  snd (loop_body x) = Raise err ->
  for_each loop_body (x :: rest) e = (fst (loop_body x), Raise err).
Proof.
  intros Hx. simpl. destruct (loop_body x) as [t q]. simpl in Hx. now subst q.
Qed.

End Loops.

(** ** Endpoint discovery *)

Lemma service_event_waits (ev : event V1Service) :
  waiting_for_ingress ev = true ->
  service_event ev = ([service_debug ev], Ret Next).
Proof.
  unfold waiting_for_ingress, ingress_of, service_event. intros H.
  destruct (ingress _) as [[|i l]|]; try discriminate; reflexivity.
Qed.

Lemma service_event_resolves (ev : event V1Service) i others :
  ingress_of ev = Some (i :: others) ->
  service_event ev = ([service_debug ev], Ret (Stop (ingress_url i))).
Proof.
  unfold ingress_of, service_event. intros H. now rewrite H.
Qed.

Lemma waiting_services_skip (evs : list (event V1Service)) :
  Forall (fun ev => waiting_for_ingress ev = true) evs ->
  Forall (fun ev => snd (service_event ev) = Ret Next) evs.
Proof.
  apply Forall_impl. intros ev H. now rewrite (service_event_waits ev H).
Qed.

Lemma waiting_services_trace (evs : list (event V1Service)) :
  Forall (fun ev => waiting_for_ingress ev = true) evs ->
  flat_map (fun ev => fst (service_event ev)) evs = map service_debug evs.
Proof.
  induction 1 as [|ev evs H _ IH]; simpl; [reflexivity|].
  now rewrite (service_event_waits ev H), IH.
Qed.

Lemma pulled_service_debug (evs : list (event V1Service)) :
  pulled (map service_debug evs) = List.length evs.
Proof. unfold pulled. induction evs; simpl; congruence. Qed.

(** The function, once the selector string is built, in terms of its loop. *)
Lemma get_service_external_endpoint_run (who namespace : string) (d : dict)
    (w : stream (event V1Service)) :
  get_service_external_endpoint who namespace (Some d) w =
    let intro := [Print "Waiting for prediction endpoint to come up...";
                  WatchStream list_namespaced_service namespace
                    (join ", " (map (fun kv => fst kv +++ "=" +++ snd kv) d))] in
    match for_stream service_event w with
    | (t, Ret v) => (intro ++ t, Ret v)
    | (t, Raise e) => (intro ++ t ++ fst (@watch_handler string who e),
                       snd (@watch_handler string who e))
    end.
Proof.
  unfold get_service_external_endpoint, label_selector.
  rewrite bind_ret, bind_emit. simpl.
  destruct (for_stream service_event w) as [t [v|e]]; simpl; [reflexivity|].
  now destruct (watch_handler who e).
Qed.

(** ** Pod log acquisition: one event *)

Lemma step_open_eq api namespace container follow ev notice run :
  is_notice notice = true ->
  run = ([pod_debug ev; notice; open_effect namespace container follow ev],
         open_answer api namespace container follow ev) ->
  pod_step api namespace container follow ev run.
Proof. intros Hn ->. now apply step_open. Qed.

Lemma pod_event_step api namespace container follow ev :
  pod_step api namespace container follow ev (pod_event api namespace container follow ev).
Proof.
  destruct ev as [ty [[pod_name] [ph cs]]].
  unfold pod_event, read_namespaced_pod_log, first_status, terminated_of,
    or_else, and_then.
  destruct ph; simpl; try apply step_pending;
    destruct cs as [[|[rd [rn tm wt]] others]|]; simpl;
    try apply step_crash; try apply step_wait.
  all: try (destruct rd; simpl).
  all: try (destruct ty; simpl).
  all: try (destruct wt; simpl).
  all: try (destruct tm; simpl).
  all: try apply step_crash; try apply step_wait.
  all: unfold bind, emit, lift, ret; simpl.
  all: eapply step_open_eq;
    [ | unfold open_answer, open_effect, pod_debug, pod_phase_of; simpl;
        destruct (api _ _ _ _); reflexivity ];
    reflexivity.
Qed.

Lemma open_answer_not_next api namespace container follow ev :
  open_answer api namespace container follow ev <> Ret Next.
Proof. unfold open_answer. now destruct (api _ _ _ _). Qed.

(** An iteration that falls through has only logged. *)
Lemma skip_trace api namespace container follow ev :
  snd (pod_event api namespace container follow ev) = Ret Next ->
  fst (pod_event api namespace container follow ev) = [pod_debug ev]
  \/ fst (pod_event api namespace container follow ev) = [pod_debug ev; pod_warning ev].
Proof.
  destruct (pod_event_step api namespace container follow ev); simpl; intros Hnext;
    auto; try discriminate.
  now apply open_answer_not_next in Hnext.
Qed.

(** Events on which the body falls through leave a trace of diagnostics,
    one [DEBUG] line per event. *)
Lemma skipped_facts api namespace container follow (pre : list (event V1Pod)) :
  Forall (fun ev => snd (pod_event api namespace container follow ev) = Ret Next) pre ->
  let t := flat_map (fun ev => fst (pod_event api namespace container follow ev)) pre in
  opens t = 0 /\ pulled t = List.length pre /\ printed t = [] /\ released t = [].
Proof.
  induction 1 as [|ev l H _ IH]; simpl; [now repeat split|].
  destruct IH as (Ho & Hp & Hl & Hr).
  rewrite opens_app, pulled_app, printed_app, released_app, Ho, Hp, Hl, Hr.
  now destruct (skip_trace _ _ _ _ _ H) as [-> | ->].
Qed.

(** ** Pod log acquisition: the chunked read *)

Lemma print_chunks_trace (chunks : list bytes) (e : stream_end) :
  exists lines, fst (for_each print_chunk chunks e) = map Print lines.
Proof.
  induction chunks as [|chunk chunks [lines IH]]; simpl.
  - exists []. now destruct e.
  - unfold print_chunk at 1, decode_utf8.
    destruct (utf8_valid (rstrip chunk)); simpl.
    + destruct (for_each print_chunk chunks e) as [t r]. simpl in IH. subst t.
      now exists (string_of_list_byte (rstrip chunk) :: lines).
    + now exists [].
Qed.

(** Whatever the body does, the read starts with [stream], prints, and
    ends with the one [release_conn]. *)
Lemma relay_trace (resp : HTTPResponse) :
  exists lines,
    fst (relay (Some resp)) = stream_effect resp :: map Print lines ++ [ReleaseConn resp].
Proof.
  unfold relay, for_stream.
  destruct (print_chunks_trace (delivered (body resp)) (ending (body resp))) as [lines H].
  exists lines. rewrite bind_emit. unfold try_finally, emit.
  destruct (for_each print_chunk _ _) as [t [v|x]]; simpl in *; subst t; simpl.
  - now rewrite app_nil_r.
  - reflexivity.
Qed.

Lemma opens_prints (lines : list string) : opens (map Print lines) = 0.
Proof. unfold opens. induction lines; simpl; auto. Qed.

Lemma pulled_prints (lines : list string) : pulled (map Print lines) = 0.
Proof. unfold pulled. induction lines; simpl; auto. Qed.

Lemma released_prints (lines : list string) : released (map Print lines) = [].
Proof. unfold released. induction lines; simpl; auto. Qed.

Lemma relay_facts (tail : option HTTPResponse) :
  opens (fst (relay tail)) = 0 /\ pulled (fst (relay tail)) = 0
  /\ released (fst (relay tail)) = match tail with Some resp => [resp] | None => [] end.
Proof.
  destruct tail as [resp|]; [|now cbn].
  destruct (relay_trace resp) as [lines ->].
  change (stream_effect resp :: map Print lines ++ [ReleaseConn resp])
    with ([stream_effect resp] ++ map Print lines ++ [ReleaseConn resp]).
  rewrite !opens_app, !pulled_app, !released_app.
  now rewrite opens_prints, pulled_prints, released_prints.
Qed.

(** ** Pod log acquisition: the whole operation *)

Lemma log_run (api : pod_log_api) (who namespace : string) (d : dict)
    (container : string) (follow : bool) (w : stream (event V1Pod)) :
  log api who namespace (Some d) container follow w =
    let intro := [WatchStream list_namespaced_pod namespace (selector_string d)] in
    match for_stream (pod_event api namespace container follow) w with
    | (t, Ret tail) => (intro ++ t ++ fst (relay tail), snd (relay tail))
    | (t, Raise e) =>
        if caught e then (intro ++ t ++ [status_error who e], Ret tt)
        else (intro ++ t, Raise e)
    end.
Proof.
  unfold log, label_selector, selector_string.
  rewrite bind_ret, bind_emit.
  destruct (for_stream _ w) as [t [tail|e]]; simpl.
  - destruct (relay tail) as [t2 r2]. simpl. reflexivity.
  - destruct e; simpl; try reflexivity; now rewrite app_nil_r.
Qed.

Lemma watch_outcome_after api namespace container follow (t0 : list effect) run :
  opens t0 = 0 -> released t0 = [] ->
  watch_outcome api namespace container follow run ->
  watch_outcome api namespace container follow (t0 ++ fst run, snd run).
Proof.
  intros Ho Hr [t r Ht Hrel Hnone | t ev Ht Hrel]; simpl.
  - apply watch_no_open; [rewrite opens_app | rewrite released_app | ]; auto.
    + now rewrite Ho, Ht.
    + now rewrite Hr, Hrel.
  - rewrite app_assoc. apply watch_opened; [rewrite opens_app | rewrite released_app].
    + now rewrite Ho, Ht.
    + now rewrite Hr, Hrel.
Qed.

Lemma pod_loop_outcome api namespace container follow
    (evs : list (event V1Pod)) (e : stream_end) :
  watch_outcome api namespace container follow
    (for_each (pod_event api namespace container follow) evs e).
Proof.
  induction evs as [|ev evs IH]; simpl.
  - destruct e; apply watch_no_open; auto; discriminate.
  - destruct (pod_event_step api namespace container follow ev) as [ | | notice Hn | x ].
    + unfold bind. destruct (for_each _ evs e) as [t r] eqn:E.
      now apply (watch_outcome_after _ _ _ _ [pod_debug ev; pod_warning ev] (t, r)).
    + unfold bind. destruct (for_each _ evs e) as [t r] eqn:E.
      now apply (watch_outcome_after _ _ _ _ [pod_debug ev] (t, r)).
    + unfold bind, open_answer.
      assert (Hz : opens [pod_debug ev; notice] = 0) by now destruct notice as [| [] | | | |].
      assert (Hr : released [pod_debug ev; notice] = []) by now destruct notice as [| [] | | | |].
      pose proof (watch_opened api namespace container follow _ ev Hz Hr) as W.
      destruct (api _ _ _ _); exact W.
    + apply watch_no_open; auto; discriminate.
Qed.

Lemma opens_zero_not_in (t : list effect) a b c d :
  opens t = 0 -> ~ In (ReadPodLog a b c d) t.
Proof.
  unfold opens. induction t as [|f t IH]; simpl; [tauto|].
  intros H [Hf | Hin].
  - subst f. discriminate H.
  - revert H. destruct (is_open f); simpl; [discriminate|].
    intros H. now apply IH.
Qed.

(** ** Pod log acquisition: the events the specification tells apart *)

Lemma still_starting_skips api namespace container follow (ev : event V1Pod) :
  still_starting ev = true ->
  snd (pod_event api namespace container follow ev) = Ret Next.
Proof.
  destruct ev as [ty [[pod_name] [ph cs]]].
  unfold still_starting, failure_event, failing_state, log_eligible, has_first_status,
    pod_phase_of, statuses_of.
  destruct ph, ty; simpl; try discriminate; try reflexivity;
    destruct cs as [[|[rd [rn tm wt]] others]|]; simpl; try discriminate;
    destruct rd, wt, tm; simpl; try discriminate; reflexivity.
Qed.

Lemma pod_event_started api namespace container follow (ev : event V1Pod) c others :
  statuses_of ev = Some (c :: others) ->
  log_eligible ev = true ->
  pod_event api namespace container follow ev =
    ([pod_debug ev; started_info c; open_effect namespace container follow ev],
     open_answer api namespace container follow ev).
Proof.
  destruct ev as [ty [[pod_name] [ph cs]]].
  unfold log_eligible, pod_phase_of, statuses_of. simpl. intros ->.
  unfold pod_event, open_answer, open_effect, pod_debug, started_info,
    read_namespaced_pod_log, pod_phase_of.
  destruct ph; simpl; try discriminate.
  - intros ->. unfold bind, lift, emit, ret. simpl. now destruct (api _ _ _ _).
  - intros _. unfold bind, lift, emit, ret. simpl. now destruct (api _ _ _ _).
Qed.

Lemma pod_event_failed api namespace container follow (ev : event V1Pod) c others t :
  statuses_of ev = Some (c :: others) ->
  terminated (state c) = Some t ->
  pod_phase_of ev <> Pending ->
  log_eligible ev = false ->
  ev_type ev = DELETED \/ pod_phase_of ev = Failed \/ waiting (state c) <> None ->
  pod_event api namespace container follow ev =
    ([pod_debug ev; launch_error ev t; open_effect namespace container follow ev],
     open_answer api namespace container follow ev).
Proof.
  destruct ev as [ty [[pod_name] [ph cs]]]. destruct c as [rd [rn tm wt]].
  unfold log_eligible, pod_phase_of, statuses_of. simpl. intros -> -> Hph Hel Htrig.
  unfold pod_event, open_answer, open_effect, pod_debug, launch_error,
    read_namespaced_pod_log, pod_phase_of.
  destruct ph; simpl in *; try congruence; subst;
    destruct ty, wt; simpl;
    try (unfold bind, lift, emit, ret; simpl; now destruct (api _ _ _ _)).
  all: exfalso; destruct Htrig as [H | [H | H]]; congruence.
Qed.

(** The loop at an event whose body asks for the log handle. *)
Lemma for_each_opening api namespace container follow (ev : event V1Pod) post e t :
  pod_event api namespace container follow ev
    = (t, open_answer api namespace container follow ev) ->
  for_each (pod_event api namespace container follow) (ev :: post) e =
    (t, match api (name (metadata (ev_object ev))) namespace follow container with
        | Ret resp => Ret (Some resp)
        | Raise x => Raise x
        end).
Proof.
  intros H. simpl. rewrite H. unfold open_answer, bind.
  destruct (api _ _ _ _); simpl; [now rewrite app_nil_r | reflexivity].
Qed.

Lemma after_watch_facts who r :
  opens (after_watch who r) = 0 /\ pulled (after_watch who r) = 0.
Proof.
  destruct r as [tail|e]; simpl.
  - destruct (relay_facts tail) as (Ho & Hp & _). now split.
  - now destruct (caught e).
Qed.

Lemma log_trace (api : pod_log_api) (who namespace : string) (d : dict)
    (container : string) (follow : bool) (w : stream (event V1Pod)) :
  fst (log api who namespace (Some d) container follow w) =
    [WatchStream list_namespaced_pod namespace (selector_string d)]
    ++ fst (for_stream (pod_event api namespace container follow) w)
    ++ after_watch who (snd (for_stream (pod_event api namespace container follow) w)).
Proof.
  rewrite log_run. destruct (for_stream _ w) as [t [tail|e]]; simpl; [reflexivity|].
  destruct (caught e); simpl; [reflexivity | now rewrite app_nil_r].
Qed.

Lemma in_singleton_open (t0 rest : list effect) (f g : effect) :
  is_open f = true -> opens t0 = 0 -> opens rest = 0 ->
  In f (t0 ++ [g] ++ rest) -> f = g.
Proof.
  intros Hf H0 Hr Hin.
  destruct f; try discriminate.
  apply in_app_or in Hin. destruct Hin as [Hin | Hin].
  - now apply opens_zero_not_in in Hin.
  - apply in_app_or in Hin. destruct Hin as [[Hin | []] | Hin]; [congruence|].
    now apply opens_zero_not_in in Hin.
Qed.

(** * The claims *)

(** ** Endpoint discovery *)

(** C1.  For every sequence of service events: while every snapshot's
    ingress list is empty or absent, [get_service_external_endpoint]
    gives no URL.  At the first snapshot whose ingress list is not empty
    it returns ["http://<address>:5000/predict"], having taken exactly
    that many events and none after; [<address>] is the first entry's IP
    when it has one, and otherwise its hostname. *)
Theorem endpoint_resolved_at_first_ingress
    (who namespace : string) (selectors : dict) (pre : list (event V1Service)) :
  Forall (fun ev => waiting_for_ingress ev = true) pre ->
  (forall e url,
      snd (get_service_external_endpoint who namespace (Some selectors)
             {| delivered := pre; ending := e |}) <> Ret (Some url))
  /\
  (forall ev post e i others,
      ingress_of ev = Some (i :: others) ->
      let run := get_service_external_endpoint who namespace (Some selectors)
                   {| delivered := pre ++ ev :: post; ending := e |} in
      exists address,
        snd run = Ret (Some ("http://" +++ address +++ ":5000/predict"))
        /\ pulled (fst run) = S (List.length pre)
        /\ (forall a, ip i = Some a -> a <> "" -> address = a)
        /\ (ip i = None -> address = format_opt (hostname i))).
Proof.
  intros Hpre. pose proof (waiting_services_skip pre Hpre) as Hskip. split.
  - intros e url. rewrite get_service_external_endpoint_run. unfold for_stream. simpl.
    rewrite (for_each_all_skipped _ _ _ Hskip).
    destruct e as [|x]; simpl; [discriminate|].
    destruct x; simpl; discriminate.
  - intros ev post e i others Hev run. subst run.
    rewrite get_service_external_endpoint_run. unfold for_stream. simpl.
    rewrite (for_each_skips _ _ _ _ Hskip).
    rewrite (for_each_stops _ ev post e (ingress_url i))
      by now rewrite (service_event_resolves ev i others Hev).
    rewrite (service_event_resolves ev i others Hev), (waiting_services_trace pre Hpre).
    simpl. exists (format_opt (py_or (ip i) (hostname i))). repeat split.
    + change (pulled ([Print "Waiting for prediction endpoint to come up...";
                       WatchStream list_namespaced_service namespace
                         (join ", " (map (fun kv => fst kv +++ "=" +++ snd kv) selectors))]
                      ++ map service_debug pre ++ [service_debug ev])
              = S (List.length pre)).
      rewrite !pulled_app, pulled_service_debug. cbn. lia.
    + intros a Ha Hne. unfold py_or. rewrite Ha. simpl.
      apply String.eqb_neq in Hne. now rewrite Hne.
    + intros Hnone. unfold py_or. now rewrite Hnone.
Qed.

(** C10.  With [selectors] left at its default [None], both operations
    raise [AttributeError] while building the label-selector string,
    before anything is printed and before any watch is opened.  Nothing
    checks that the mapping is non-empty: the empty mapping opens the
    watch with the empty selector string. *)
Theorem default_selectors_fail
    (api : pod_log_api) (who namespace container : string) (follow : bool)
    (ws : stream (event V1Service)) (wp : stream (event V1Pod)) :
  get_service_external_endpoint who namespace None ws
    = ([], Raise (AttributeError "'NoneType' object has no attribute 'items'"))
  /\ log api who namespace None container follow wp
    = ([], Raise (AttributeError "'NoneType' object has no attribute 'items'"))
  /\ (exists t, fst (get_service_external_endpoint who namespace (Some []) ws)
                = Print "Waiting for prediction endpoint to come up..."
                  :: WatchStream list_namespaced_service namespace "" :: t)
  /\ (exists t, fst (log api who namespace (Some []) container follow wp)
                = WatchStream list_namespaced_pod namespace "" :: t).
Proof.
  repeat split.
  - rewrite get_service_external_endpoint_run. simpl.
    destruct (for_stream service_event ws) as [t [v|e]]; simpl; eauto.
  - rewrite log_run. simpl.
    destruct (for_stream _ wp) as [t [v|e]]; simpl; eauto.
    destruct (caught e); simpl; eauto.
Qed.

(** ** The label selector *)

Lemma append_assoc (a b c : string) : (a +++ b) +++ c = a +++ b +++ c.
Proof. induction a as [|ch a IH]; simpl; [reflexivity | now rewrite IH]. Qed.

Lemma selector_string_cons (k v : string) (d : dict) :
  d <> [] ->
  selector_string ((k, v) :: d) = k +++ "=" +++ v +++ ", " +++ selector_string d.
Proof.
  unfold selector_string. destruct d as [|kv d]; [congruence|]. intros _. simpl.
  now rewrite !append_assoc.
Qed.

(** C6, as the code has it.  For every selector mapping, both watch
    operations open their event stream with the mapping's [key=value]
    pairs joined by a comma and a space, in the mapping's own iteration
    order: the keys are not sorted. *)
Theorem selector_pairs_joined_in_iteration_order
    (api : pod_log_api) (who namespace container : string) (follow : bool)
    (d : dict) (ws : stream (event V1Service)) (wp : stream (event V1Pod)) :
  (exists t, fst (get_service_external_endpoint who namespace (Some d) ws)
             = Print "Waiting for prediction endpoint to come up..."
               :: WatchStream list_namespaced_service namespace (selector_string d) :: t)
  /\ (exists t, fst (log api who namespace (Some d) container follow wp)
                = WatchStream list_namespaced_pod namespace (selector_string d) :: t)
  /\ selector_string [] = ""
  /\ (forall k v, selector_string [(k, v)] = k +++ "=" +++ v)
  /\ (forall k v rest, rest <> [] ->
        selector_string ((k, v) :: rest) = k +++ "=" +++ v +++ ", " +++ selector_string rest).
Proof.
  repeat split.
  - rewrite get_service_external_endpoint_run. simpl.
    destruct (for_stream service_event ws) as [t [v|e]]; simpl; eauto.
  - rewrite log_run. simpl.
    destruct (for_stream _ wp) as [t [v|e]]; simpl; eauto.
    destruct (caught e); simpl; eauto.
  - intros k v rest. apply selector_string_cons.
Qed.

(** ** Errors of the event stream *)

(** C7, as the code has it.  When the event stream raises an
    [ApiException], a [ValueError] or a subclass of [ValueError] such as
    [UnicodeDecodeError], both watch operations catch it, log one [ERROR]
    diagnostic naming [name] and the error, and end normally without a
    result: [get_service_external_endpoint] returns [None], and [log]
    returns having asked for no log handle and printed no line. *)
Theorem stream_errors_caught_at_watch (e : exn) :
  caught e = true ->
  (forall who namespace selectors evs,
      Forall (fun ev => snd (service_event ev) = Ret Next) evs ->
      let run := get_service_external_endpoint who namespace (Some selectors)
                   {| delivered := evs; ending := Fails e |} in
      snd run = Ret None
      /\ exists t, fst run = t ++ [status_error who e])
  /\
  (forall api who namespace selectors container follow evs,
      Forall (fun ev => snd (pod_event api namespace container follow ev) = Ret Next) evs ->
      let run := log api who namespace (Some selectors) container follow
                   {| delivered := evs; ending := Fails e |} in
      snd run = Ret tt
      /\ (exists t, fst run = t ++ [status_error who e])
      /\ printed (fst run) = []
      /\ opens (fst run) = 0).
Proof.
  intros Hc. split.
  - intros who namespace selectors evs Hskip run. subst run.
    rewrite get_service_external_endpoint_run. unfold for_stream. simpl.
    rewrite (for_each_all_skipped _ _ _ Hskip).
    destruct e; try discriminate Hc; simpl; (split; [reflexivity|]).
    all: eexists (_ :: _ :: _); simpl; reflexivity.
  - intros api who namespace selectors container follow evs Hskip run. subst run.
    rewrite log_run. unfold for_stream. simpl.
    rewrite (for_each_all_skipped _ _ _ Hskip).
    destruct (skipped_facts _ _ _ _ _ Hskip) as (Ho & _ & Hp & _).
    rewrite Hc. simpl. repeat split.
    + eexists (_ :: _). simpl. reflexivity.
    + change (printed ([WatchStream list_namespaced_pod namespace (selector_string selectors)]
                       ++ flat_map (fun ev => fst (pod_event api namespace container follow ev)) evs
                       ++ [status_error who e]) = []).
      rewrite !printed_app, Hp. reflexivity.
    + change (opens ([WatchStream list_namespaced_pod namespace (selector_string selectors)]
                     ++ flat_map (fun ev => fst (pod_event api namespace container follow ev)) evs
                     ++ [status_error who e]) = 0).
      rewrite !opens_app, Ho. reflexivity.
Qed.

(** ** The [name] argument *)

(** C9.  Two calls that differ only in [name] and see the same events
    return the same value (or raise the same exception) and make the same
    calls in the same order: the same watch, the same request for a log
    handle, the same printed lines.  Only the text of [ERROR] diagnostics
    can differ. *)
Theorem name_only_in_diagnostics
    (api : pod_log_api) (who1 who2 namespace container : string) (follow : bool)
    (selectors : option dict) (ws : stream (event V1Service)) (wp : stream (event V1Pod)) :
  snd (get_service_external_endpoint who1 namespace selectors ws)
    = snd (get_service_external_endpoint who2 namespace selectors ws)
  /\ map blank_error (fst (get_service_external_endpoint who1 namespace selectors ws))
     = map blank_error (fst (get_service_external_endpoint who2 namespace selectors ws))
  /\ snd (log api who1 namespace selectors container follow wp)
     = snd (log api who2 namespace selectors container follow wp)
  /\ map blank_error (fst (log api who1 namespace selectors container follow wp))
     = map blank_error (fst (log api who2 namespace selectors container follow wp)).
Proof.
  destruct selectors as [d|]; [|now repeat split].
  rewrite !get_service_external_endpoint_run, !log_run. simpl.
  destruct (for_stream service_event ws) as [t [v|e]];
    destruct (for_stream _ wp) as [t' [v'|e']]; simpl.
  all: repeat split.
  all: try (destruct e; simpl; try reflexivity;
            rewrite !map_app; reflexivity).
  all: try (destruct (caught e'); simpl; try reflexivity;
            rewrite !map_app; reflexivity).
Qed.

(** ** The log handle *)

(** C5.  Whenever [log] asked for a log handle and the cluster answered
    with one, that handle is released exactly once, and the release is the
    last thing [log] does, whatever the chunked read came to: a body read
    to its end, a read that raises, an interrupt, or a chunk that does not
    decode. *)
Theorem opened_handle_released_once
    (api : pod_log_api) (who namespace container : string) (follow : bool)
    (selectors : option dict) (wp : stream (event V1Pod))
    (pod_name namespace' container' : string) (follow' : bool) (resp : HTTPResponse) :
  let run := log api who namespace selectors container follow wp in
  In (ReadPodLog pod_name namespace' follow' container') (fst run) ->
  api pod_name namespace' follow' container' = Ret resp ->
  released (fst run) = [resp] /\ exists t, fst run = t ++ [ReleaseConn resp].
Proof.
  intros run. subst run. destruct selectors as [d|]; [|intros []].
  rewrite log_trace. unfold for_stream.
  set (intro := [WatchStream list_namespaced_pod namespace (selector_string d)]).
  destruct (pod_loop_outcome api namespace container follow (delivered wp) (ending wp))
    as [t r Ht Hrel Hnone | t ev Ht Hrel]; simpl fst; simpl snd.
  - intros Hin _. exfalso.
    assert (Hz : opens (intro ++ t ++ after_watch who r) = 0).
    { rewrite !opens_app, Ht. now destruct (after_watch_facts who r) as [-> _]. }
    exact (opens_zero_not_in _ _ _ _ _ Hz Hin).
  - intros Hin Hapi.
    remember (match api (name (metadata (ev_object ev))) namespace follow container with
              | Ret resp0 => Ret (Some resp0)
              | Raise e => Raise e
              end) as r eqn:Er.
    assert (Heq : ReadPodLog pod_name namespace' follow' container'
                  = open_effect namespace container follow ev).
    { apply (in_singleton_open (intro ++ t) (after_watch who r)).
      - reflexivity.
      - rewrite opens_app, Ht. reflexivity.
      - now destruct (after_watch_facts who r).
      - now rewrite <- !app_assoc in *. }
    unfold open_effect in Heq. injection Heq as -> -> -> ->.
    rewrite Hapi in Er. subst r.
    change (after_watch who (Ret (Some resp))) with (fst (relay (Some resp))).
    destruct (relay_trace resp) as [lines Hlines]. split.
    + rewrite !released_app, Hrel. destruct (relay_facts (Some resp)) as (_ & _ & ->).
      reflexivity.
    + exists (intro ++ (t ++ [open_effect namespace container follow ev])
              ++ stream_effect resp :: map Print lines).
      rewrite Hlines, <- !app_assoc. reflexivity.
Qed.

(** ** Custom-resource creation *)

(** C8.  When the API answers a custom-resource creation with an
    [ApiException], [create_tf_job] and [create_kfserving] raise a
    [RuntimeError] in its place, whose message spells out the CRD version
    that was asked for; when the API returns an object, that object is
    returned as it is. *)
Theorem crd_rejection_reclassified
    (tf_group tf_version tf_plural kf_group kf_version kf_plural : string)
    (manifest api_object : Type) (api : custom_objects_api manifest api_object)
    (namespace : string) (body : manifest) :
  (forall msg, api tf_group tf_version namespace tf_plural body = Raise (ApiException msg) ->
     create_tf_job tf_group tf_version tf_plural manifest api_object api namespace body
     = ([], Raise (RuntimeError ("Failed to create TFJob. Perhaps the CRD TFJob version "
                                 +++ tf_version +++ " in not installed?"))))
  /\ (forall obj, api tf_group tf_version namespace tf_plural body = Ret obj ->
        create_tf_job tf_group tf_version tf_plural manifest api_object api namespace body
        = ([], Ret obj))
  /\ (forall msg, api kf_group kf_version namespace kf_plural body = Raise (ApiException msg) ->
        create_kfserving kf_group kf_version kf_plural manifest api_object api namespace body
        = ([], Raise (RuntimeError ("Failed to create KFService. Perhaps the CRD KFServing version "
                                    +++ kf_version +++ " is not installed?"))))
  /\ (forall obj, api kf_group kf_version namespace kf_plural body = Ret obj ->
        create_kfserving kf_group kf_version kf_plural manifest api_object api namespace body
        = ([], Ret obj)).
Proof.
  unfold create_tf_job, create_kfserving, try_except, lift. repeat split.
  - now intros msg ->.
  - now intros obj ->.
  - now intros msg ->.
  - now intros obj ->.
Qed.

(** * Concrete runs *)

(** ** C1 *)

Lemma endpoint_resolved_at_first_ingress_witness :
  Forall (fun ev => waiting_for_ingress ev = true)
    [service_snapshot MODIFIED (Some []); service_snapshot MODIFIED (Some [])]
  /\ snd (get_service_external_endpoint "predictor" "default" (Some app_predictor)
            {| delivered := [service_snapshot MODIFIED (Some []);
                             service_snapshot MODIFIED (Some []);
                             service_snapshot MODIFIED
                               (Some [{| ip := Some "10.0.0.5"; hostname := None |}])];
               ending := Exhausted |})
     = Ret (Some "http://10.0.0.5:5000/predict").
Proof.
  assert (Hpre : Forall (fun ev => waiting_for_ingress ev = true)
                   [service_snapshot MODIFIED (Some []); service_snapshot MODIFIED (Some [])])
    by (repeat constructor).
  split; [exact Hpre|].
  destruct (endpoint_resolved_at_first_ingress "predictor" "default" app_predictor _ Hpre)
    as [_ H].
  destruct (H (service_snapshot MODIFIED (Some [{| ip := Some "10.0.0.5"; hostname := None |}]))
              [] Exhausted _ [] eq_refl) as (address & Hrun & _ & Hip & _).
  rewrite (Hip "10.0.0.5" eq_refl) in Hrun by discriminate.
  exact Hrun.
Defined.

(** ** C2 *)

(** C2, at a snapshot without container statuses.  A pod is reported
    [Unknown] before any container status, and then [Running] and ready.
    The sequence has a log-eligible snapshot with no [DELETED] event, no
    [phase=Failed] and no failing container state before it, and C2
    promises one log handle; [log] raises [TypeError] on the first event,
    where the failure test indexes [container_statuses], and never asks
    for a handle. *)
Lemma log_crashes_before_ready_snapshot :
  let lost := pod_snapshot MODIFIED "train-0" Unknown None in
  let run := log (answer_with whole_response) "train" "default" (Some app_predictor) "" true
               {| delivered := [lost; now_ready]; ending := Exhausted |} in
  failure_event lost = false
  /\ log_eligible now_ready = true
  /\ opens (fst run) = 0
  /\ snd run = Raise (TypeError "'NoneType' object is not subscriptable").
Proof. repeat split. Qed.

(** ** C3 *)

(** C3, at a container in [CrashLoopBackOff].  The first container is
    waiting, so the event is a failure event and the failure branch is
    taken, and C3 promises a diagnostic and one log handle.  The
    diagnostic reads [state.terminated.reason] of a state that has no
    terminated member: [log] raises [AttributeError], logs no [ERROR]
    line and never asks for a handle. *)
Lemma waiting_container_raises_before_diagnostic :
  let backoff := pod_snapshot MODIFIED "train-0" Running
                   (Some [{| ready := false; state := state_waiting "CrashLoopBackOff" |}]) in
  let run := log (answer_with whole_response) "train" "default" (Some app_predictor) "" true
               {| delivered := [pod_snapshot ADDED "train-0" Pending None; backoff];
                  ending := Exhausted |} in
  failure_event backoff = true
  /\ log_eligible backoff = false
  /\ snd run = Raise (AttributeError "'NoneType' object has no attribute 'reason'")
  /\ errors (fst run) = 0
  /\ opens (fst run) = 0.
Proof. repeat split. Qed.

(** ** C4 *)

(** C4, at a pod that failed before any container started.  The snapshot
    has [phase=Failed] and no container statuses, and C4 promises that the
    evaluation does not fail.  The failure branch is taken and its
    diagnostic indexes [container_statuses]: the iteration raises
    [TypeError], which leaves [log] before any handle is asked for. *)
Lemma failed_pod_without_statuses_raises :
  let evicted := pod_snapshot MODIFIED "train-0" Failed None in
  let run := log (answer_with whole_response) "train" "default" (Some app_predictor) "" true
               {| delivered := [evicted]; ending := Exhausted |} in
  statuses_of evicted = None
  /\ pod_event (answer_with whole_response) "default" "" true evicted
     = ([pod_debug evicted], Raise (TypeError "'NoneType' object is not subscriptable"))
  /\ snd run = Raise (TypeError "'NoneType' object is not subscriptable")
  /\ opens (fst run) = 0.
Proof. repeat split. Qed.

(** ** C5 *)

(** The connection breaks in the middle of the read: the error leaves
    [log], and the handle has been released on the way out. *)
Lemma opened_handle_released_once_witness :
  let run := log (answer_with broken_response) "train" "default" (Some app_predictor) "" true
               {| delivered := [now_ready]; ending := Exhausted |} in
  In (ReadPodLog "train-0" "default" true "") (fst run)
  /\ snd run = Raise (OtherError "ProtocolError" "Connection broken")
  /\ released (fst run) = [broken_response]
  /\ exists t, fst run = t ++ [ReleaseConn broken_response].
Proof.
  assert (Hin : In (ReadPodLog "train-0" "default" true "")
                  (fst (log (answer_with broken_response) "train" "default"
                          (Some app_predictor) "" true
                          {| delivered := [now_ready]; ending := Exhausted |})))
    by (simpl; tauto).
  split; [exact Hin|]. split; [reflexivity|].
  exact (opened_handle_released_once (answer_with broken_response) "train" "default" "" true
           (Some app_predictor) {| delivered := [now_ready]; ending := Exhausted |}
           "train-0" "default" "" true broken_response Hin eq_refl).
Defined.

(** ** C6 *)

(** A mapping whose keys are not in order: both operations send the pairs
    as the mapping gives them, which is not the sorted serialization,
    with either separator. *)
Lemma selector_keys_not_sorted :
  let sent := "tier=web, app=predictor" in
  (exists t, fst (get_service_external_endpoint "predictor" "default" (Some unsorted_selectors)
                    {| delivered := []; ending := Exhausted |})
             = Print "Waiting for prediction endpoint to come up..."
               :: WatchStream list_namespaced_service "default" sent :: t)
  /\ (exists t, fst (log (answer_with whole_response) "train" "default"
                       (Some unsorted_selectors) "" true
                       {| delivered := []; ending := Exhausted |})
                = WatchStream list_namespaced_pod "default" sent :: t)
  /\ sorted_selector "," unsorted_selectors = "app=predictor,tier=web"
  /\ sent <> sorted_selector "," unsorted_selectors
  /\ sent <> sorted_selector ", " unsorted_selectors.
Proof.
  repeat split; try (now exists []); discriminate.
Qed.

Lemma selector_pairs_joined_in_iteration_order_witness :
  [("app", "predictor")] <> []
  /\ selector_string unsorted_selectors = "tier=web, app=predictor".
Proof.
  assert (Hne : [("app", "predictor")] <> []) by discriminate.
  split; [exact Hne|].
  destruct (selector_pairs_joined_in_iteration_order (answer_with whole_response)
              "train" "default" "" true unsorted_selectors
              {| delivered := []; ending := Exhausted |}
              {| delivered := []; ending := Exhausted |}) as (_ & _ & _ & Hone & Hcons).
  unfold unsorted_selectors.
  rewrite (Hcons "tier" "web" [("app", "predictor")] Hne).
  rewrite (Hone "app" "predictor").
  reflexivity.
Defined.

(** ** C7 *)

(** The watch loses its connection: the HTTP library's own error is of
    neither class the [except] clauses name, so it leaves both operations
    and no diagnostic is logged. *)
Lemma dropped_connection_escapes_watch :
  let dropped := OtherError "ProtocolError" "Connection broken" in
  let found := get_service_external_endpoint "predictor" "default" (Some app_predictor)
                 {| delivered := [service_snapshot ADDED None]; ending := Fails dropped |} in
  let run := log (answer_with whole_response) "train" "default" (Some app_predictor) "" true
               {| delivered := [pod_snapshot ADDED "train-0" Pending None];
                  ending := Fails dropped |} in
  snd found = Raise dropped /\ errors (fst found) = 0
  /\ snd run = Raise dropped /\ errors (fst run) = 0.
Proof. repeat split. Qed.

(** The API server refuses the watch after one [Pending] event. *)
Lemma stream_errors_caught_at_watch_witness :
  let forbidden := ApiException "(403) Forbidden" in
  let pending := pod_snapshot ADDED "train-0" Pending None in
  let found := get_service_external_endpoint "predictor" "default" (Some app_predictor)
                 {| delivered := [service_snapshot ADDED None]; ending := Fails forbidden |} in
  let run := log (answer_with whole_response) "train" "default" (Some app_predictor) "" true
               {| delivered := [pending]; ending := Fails forbidden |} in
  caught forbidden = true
  /\ snd found = Ret None
  /\ snd run = Ret tt
  /\ printed (fst run) = []
  /\ opens (fst run) = 0
  /\ exists t, fst run = t ++ [Logger ERROR "error getting status for train (403) Forbidden" []].
Proof.
  assert (Hexn : caught (ApiException "(403) Forbidden") = true) by reflexivity.
  split; [exact Hexn|].
  destruct (stream_errors_caught_at_watch _ Hexn) as [Hsvc Hpod].
  destruct (Hsvc "predictor" "default" app_predictor [service_snapshot ADDED None])
    as [Hnone _]; [repeat constructor|].
  destruct (Hpod (answer_with whole_response) "train" "default" app_predictor "" true
              [pod_snapshot ADDED "train-0" Pending None])
    as (Hret & Hlast & Hprinted & Hopens); [repeat constructor|].
  repeat split; assumption.
Defined.

(** ** C8 *)

(** The TFJob CRD is not installed: the API answers 404. *)
Lemma crd_rejection_reclassified_witness :
  let missing : custom_objects_api string string :=
    fun _ _ _ _ _ => Raise (ApiException "(404) Not Found") in
  missing "kubeflow.org" "v1beta2" "default" "tfjobs" "mnist" = Raise (ApiException "(404) Not Found")
  /\ create_tf_job "kubeflow.org" "v1beta2" "tfjobs" string string missing "default" "mnist"
     = ([], Raise (RuntimeError
                     "Failed to create TFJob. Perhaps the CRD TFJob version v1beta2 in not installed?")).
Proof.
  split; [reflexivity|].
  destruct (crd_rejection_reclassified "kubeflow.org" "v1beta2" "tfjobs"
              "serving.kubeflow.org" "v1alpha1" "kfservices" string string
              (fun _ _ _ _ _ => Raise (ApiException "(404) Not Found")) "default" "mnist")
    as (Hrejected & _).
  exact (Hrejected "(404) Not Found" eq_refl).
Defined.

(** * Further properties of the two watches *)

(** ** Endpoint discovery *)

(** A list of service events is all waiting, or splits at its first event
    with a non-empty ingress list. *)
Lemma first_ingress_split (evs : list (event V1Service)) :
  Forall (fun ev => waiting_for_ingress ev = true) evs
  \/ exists pre ev post i others,
      evs = pre ++ ev :: post
      /\ Forall (fun p => waiting_for_ingress p = true) pre
      /\ ingress_of ev = Some (i :: others).
Proof.
  induction evs as [|ev evs IH]; [now left|].
  destruct (ingress_of ev) as [[|i others]|] eqn:Hev.
  - destruct IH as [Hall | (pre & ev' & post & i & others & -> & Hpre & Hev')].
    + left. constructor; [|exact Hall]. unfold waiting_for_ingress. now rewrite Hev.
    + right. exists (ev :: pre), ev', post, i, others. repeat split; auto.
      constructor; [|exact Hpre]. unfold waiting_for_ingress. now rewrite Hev.
  - right. exists [], ev, evs, i, others. repeat split; auto.
  - destruct IH as [Hall | (pre & ev' & post & i & others & -> & Hpre & Hev')].
    + left. constructor; [|exact Hall]. unfold waiting_for_ingress. now rewrite Hev.
    + right. exists (ev :: pre), ev', post, i, others. repeat split; auto.
      constructor; [|exact Hpre]. unfold waiting_for_ingress. now rewrite Hev.
Qed.

(** The run of the function on a stream that splits at its first ready
    snapshot. *)
Lemma get_service_external_endpoint_at_split (who namespace : string) (d : dict)
    (pre post : list (event V1Service)) (ev : event V1Service) (e : stream_end) i others :
  Forall (fun p => waiting_for_ingress p = true) pre ->
  ingress_of ev = Some (i :: others) ->
  get_service_external_endpoint who namespace (Some d)
    {| delivered := pre ++ ev :: post; ending := e |}
  = ([Print "Waiting for prediction endpoint to come up...";
      WatchStream list_namespaced_service namespace (selector_string d)]
       ++ map service_debug pre ++ [service_debug ev],
     Ret (Some (ingress_url i))).
Proof.
  intros Hpre Hev. pose proof (waiting_services_skip pre Hpre) as Hskip.
  rewrite get_service_external_endpoint_run. unfold for_stream. simpl delivered. simpl ending.
  rewrite (for_each_skips _ _ _ _ Hskip).
  rewrite (for_each_stops _ ev post e (ingress_url i))
    by now rewrite (service_event_resolves ev i others Hev).
  rewrite (service_event_resolves ev i others Hev), (waiting_services_trace pre Hpre).
  reflexivity.
Qed.

Lemma get_service_external_endpoint_all_waiting (who namespace : string) (d : dict)
    (evs : list (event V1Service)) (e : stream_end) :
  Forall (fun p => waiting_for_ingress p = true) evs ->
  get_service_external_endpoint who namespace (Some d) {| delivered := evs; ending := e |}
  = let intro := [Print "Waiting for prediction endpoint to come up...";
                  WatchStream list_namespaced_service namespace (selector_string d)] in
    match e with
    | Exhausted => (intro ++ map service_debug evs, Ret None)
    | Fails x =>
        if caught x then (intro ++ map service_debug evs ++ [status_error who x], Ret None)
        else (intro ++ map service_debug evs, Raise x)
    end.
Proof.
  intros Hpre. pose proof (waiting_services_skip evs Hpre) as Hskip.
  rewrite get_service_external_endpoint_run. unfold for_stream. simpl delivered. simpl ending.
  rewrite (for_each_all_skipped _ _ _ Hskip), (waiting_services_trace evs Hpre).
  destruct e as [|x]; [reflexivity|].
  destruct x; simpl; try reflexivity; now rewrite app_nil_r.
Qed.

(** X1.  No false positive: a URL that [get_service_external_endpoint]
    returns is always built from the first ingress entry of the first
    delivered snapshot whose ingress list is not empty. *)
Theorem returned_url_comes_from_first_ingress
    (who namespace : string) (selectors : option dict)
    (w : stream (event V1Service)) (url : string) :
  snd (get_service_external_endpoint who namespace selectors w) = Ret (Some url) ->
  exists pre ev post i others,
    delivered w = pre ++ ev :: post
    /\ Forall (fun p => waiting_for_ingress p = true) pre
    /\ ingress_of ev = Some (i :: others)
    /\ url = "http://" +++ format_opt (py_or (ip i) (hostname i)) +++ ":5000/predict".
Proof.
  destruct selectors as [d|]; [|discriminate].
  destruct w as [evs e]. simpl delivered.
  destruct (first_ingress_split evs) as [Hall | (pre & ev & post & i & others & -> & Hpre & Hev)].
  - rewrite (get_service_external_endpoint_all_waiting who namespace d evs e Hall).
    destruct e as [|x]; simpl; [discriminate|]. destruct (caught x); discriminate.
  - rewrite (get_service_external_endpoint_at_split who namespace d pre post ev e i others Hpre Hev).
    simpl. intros Hurl. injection Hurl as <-.
    exists pre, ev, post, i, others. repeat split; auto.
Qed.

Lemma returned_url_comes_from_first_ingress_witness :
  let w := {| delivered := [service_snapshot ADDED None;
                            service_snapshot MODIFIED
                              (Some [{| ip := None; hostname := Some "lb.example.com" |}])];
              ending := Exhausted |} in
  snd (get_service_external_endpoint "predictor" "default" (Some app_predictor) w)
    = Ret (Some "http://lb.example.com:5000/predict")
  /\ exists pre ev post i others,
      delivered w = pre ++ ev :: post
      /\ Forall (fun p => waiting_for_ingress p = true) pre
      /\ ingress_of ev = Some (i :: others)
      /\ "http://lb.example.com:5000/predict"
         = "http://" +++ format_opt (py_or (ip i) (hostname i)) +++ ":5000/predict".
Proof.
  split; [reflexivity|].
  exact (returned_url_comes_from_first_ingress "predictor" "default" (Some app_predictor)
           {| delivered := [service_snapshot ADDED None;
                            service_snapshot MODIFIED
                              (Some [{| ip := None; hostname := Some "lb.example.com" |}])];
              ending := Exhausted |}
           "http://lb.example.com:5000/predict" eq_refl).
Defined.

(** Projections of a pair that is in view, and nothing else. *)
Ltac project_pairs :=
  repeat match goal with
         | |- context [fst (?a, ?b)] => change (fst (a, b)) with a
         | |- context [snd (?a, ?b)] => change (snd (a, b)) with b
         end.

Lemma errors_app (t u : list effect) : errors (t ++ u) = errors t + errors u.
Proof. unfold errors. now rewrite filter_app, length_app. Qed.

Lemma errors_service_debug (evs : list (event V1Service)) :
  errors (map service_debug evs) = 0.
Proof. unfold errors. induction evs; simpl; auto. Qed.

Lemma skipped_errors api namespace container follow (pre : list (event V1Pod)) :
  Forall (fun ev => snd (pod_event api namespace container follow ev) = Ret Next) pre ->
  errors (flat_map (fun ev => fst (pod_event api namespace container follow ev)) pre) = 0.
Proof.
  induction 1 as [|ev l H _ IH]; simpl; [reflexivity|].
  rewrite errors_app, IH. now destruct (skip_trace _ _ _ _ _ H) as [-> | ->].
Qed.

(** The run of [log] on a stream none of whose events stops the loop. *)
Lemma log_all_skipped (api : pod_log_api) (who namespace : string) (d : dict)
    (container : string) (follow : bool) (evs : list (event V1Pod)) (e : stream_end) :
  Forall (fun ev => snd (pod_event api namespace container follow ev) = Ret Next) evs ->
  log api who namespace (Some d) container follow {| delivered := evs; ending := e |}
  = let seen := [WatchStream list_namespaced_pod namespace (selector_string d)]
                ++ flat_map (fun ev => fst (pod_event api namespace container follow ev)) evs in
    match e with
    | Exhausted => (seen, Ret tt)
    | Fails x => if caught x then (seen ++ [status_error who x], Ret tt) else (seen, Raise x)
    end.
Proof.
  intros Hskip. rewrite log_run. unfold for_stream. simpl delivered. simpl ending.
  rewrite (for_each_all_skipped _ _ _ Hskip).
  destruct e as [|x]; simpl.
  - now rewrite app_nil_r.
  - destruct (caught x); reflexivity.
Qed.

(** X2.  When the watch ends on its own before anything decided it, both
    operations return normally and silently: the endpoint operation
    returns [None], [log] asks for no handle and prints nothing, and no
    [ERROR] diagnostic tells the caller that nothing was found. *)
Theorem exhausted_watch_ends_silently :
  (forall who namespace selectors evs,
      Forall (fun ev => waiting_for_ingress ev = true) evs ->
      let run := get_service_external_endpoint who namespace (Some selectors)
                   {| delivered := evs; ending := Exhausted |} in
      snd run = Ret None /\ errors (fst run) = 0 /\ pulled (fst run) = List.length evs)
  /\
  (forall api who namespace selectors container follow evs,
      Forall (fun ev => snd (pod_event api namespace container follow ev) = Ret Next) evs ->
      let run := log api who namespace (Some selectors) container follow
                   {| delivered := evs; ending := Exhausted |} in
      snd run = Ret tt /\ errors (fst run) = 0 /\ pulled (fst run) = List.length evs
      /\ opens (fst run) = 0 /\ printed (fst run) = []).
Proof.
  split.
  - intros who namespace selectors evs Hall run. subst run.
    rewrite (get_service_external_endpoint_all_waiting _ _ _ _ _ Hall).
    cbv beta iota zeta. project_pairs.
    rewrite errors_app, pulled_app, errors_service_debug, pulled_service_debug.
    repeat split.
  - intros api who namespace selectors container follow evs Hskip run. subst run.
    rewrite (log_all_skipped _ _ _ _ _ _ _ _ Hskip).
    cbv beta iota zeta. project_pairs.
    destruct (skipped_facts _ _ _ _ _ Hskip) as (Ho & Hp & Hl & _).
    rewrite errors_app, pulled_app, opens_app, printed_app,
      (skipped_errors _ _ _ _ _ Hskip), Ho, Hp, Hl.
    repeat split.
Qed.

Lemma exhausted_watch_ends_silently_witness :
  let evs := [service_snapshot ADDED None; service_snapshot MODIFIED (Some [])] in
  Forall (fun ev => waiting_for_ingress ev = true) evs
  /\ Forall (fun ev => snd (pod_event (answer_with whole_response) "default" "" true ev)
                       = Ret Next) slow_start
  /\ snd (get_service_external_endpoint "predictor" "default" (Some app_predictor)
            {| delivered := evs; ending := Exhausted |}) = Ret None
  /\ snd (log (answer_with whole_response) "train" "default" (Some app_predictor) "" true
            {| delivered := slow_start; ending := Exhausted |}) = Ret tt.
Proof.
  assert (Hsvc : Forall (fun ev => waiting_for_ingress ev = true)
                   [service_snapshot ADDED None; service_snapshot MODIFIED (Some [])])
    by (repeat constructor).
  assert (Hpod : Forall (fun ev => snd (pod_event (answer_with whole_response)
                                         "default" "" true ev) = Ret Next) slow_start)
    by (repeat constructor).
  split; [exact Hsvc|]. split; [exact Hpod|].
  destruct exhausted_watch_ends_silently as [Hs Hp].
  split.
  - exact (proj1 (Hs "predictor" "default" app_predictor _ Hsvc)).
  - exact (proj1 (Hp (answer_with whole_response) "train" "default" app_predictor "" true
                    slow_start Hpod)).
Defined.

(** X3.  An exception of the event stream that is neither a [ValueError]
    (subclasses such as [UnicodeDecodeError] included) nor an
    [ApiException] (a dropped connection, an interrupt) is not caught: it
    leaves both operations as it is, with no [ERROR] diagnostic, no
    handle asked for and nothing printed by [log]. *)
Theorem other_stream_errors_escape (e : exn) :
  caught e = false ->
  (forall who namespace selectors evs,
      Forall (fun ev => waiting_for_ingress ev = true) evs ->
      let run := get_service_external_endpoint who namespace (Some selectors)
                   {| delivered := evs; ending := Fails e |} in
      snd run = Raise e /\ errors (fst run) = 0)
  /\
  (forall api who namespace selectors container follow evs,
      Forall (fun ev => snd (pod_event api namespace container follow ev) = Ret Next) evs ->
      let run := log api who namespace (Some selectors) container follow
                   {| delivered := evs; ending := Fails e |} in
      snd run = Raise e /\ errors (fst run) = 0
      /\ opens (fst run) = 0 /\ printed (fst run) = []).
Proof.
  intros He. split.
  - intros who namespace selectors evs Hall run. subst run.
    rewrite (get_service_external_endpoint_all_waiting _ _ _ _ _ Hall).
    cbv beta iota zeta. rewrite He. project_pairs.
    split; [reflexivity|].
    now rewrite errors_app, errors_service_debug.
  - intros api who namespace selectors container follow evs Hskip run. subst run.
    rewrite (log_all_skipped _ _ _ _ _ _ _ _ Hskip).
    cbv beta iota zeta. rewrite He. project_pairs.
    destruct (skipped_facts _ _ _ _ _ Hskip) as (Ho & Hp & Hl & _).
    rewrite errors_app, opens_app, printed_app, (skipped_errors _ _ _ _ _ Hskip), Ho, Hl.
    repeat split.
Qed.

Lemma other_stream_errors_escape_witness :
  let dropped := OtherError "ProtocolError" "Connection broken" in
  caught dropped = false
  /\ snd (get_service_external_endpoint "predictor" "default" (Some app_predictor)
            {| delivered := [service_snapshot ADDED None]; ending := Fails dropped |})
     = Raise dropped
  /\ snd (log (answer_with whole_response) "train" "default" (Some app_predictor) "" true
            {| delivered := slow_start; ending := Fails dropped |})
     = Raise dropped.
Proof.
  split; [reflexivity|].
  destruct (other_stream_errors_escape (OtherError "ProtocolError" "Connection broken") eq_refl)
    as [Hs Hp].
  split.
  - refine (proj1 (Hs "predictor" "default" app_predictor [service_snapshot ADDED None] _)).
    repeat constructor.
  - refine (proj1 (Hp (answer_with whole_response) "train" "default" app_predictor "" true
                     slow_start _)).
    repeat constructor.
Defined.

(** X4.  An IP that is [None] or the empty string counts as missing: the
    address is then the hostname, and when the hostname is [None] as well
    the operation still returns, with the literal [None] as host. *)
Theorem missing_ip_falls_back_to_hostname
    (who namespace : string) (selectors : dict) (pre post : list (event V1Service))
    (ev : event V1Service) (e : stream_end)
    (i : V1LoadBalancerIngress) (others : list V1LoadBalancerIngress) :
  Forall (fun p => waiting_for_ingress p = true) pre ->
  ingress_of ev = Some (i :: others) ->
  ip i = None \/ ip i = Some "" ->
  let run := get_service_external_endpoint who namespace (Some selectors)
               {| delivered := pre ++ ev :: post; ending := e |} in
  (forall h, hostname i = Some h -> snd run = Ret (Some ("http://" +++ h +++ ":5000/predict")))
  /\ (hostname i = None -> snd run = Ret (Some "http://None:5000/predict")).
Proof.
  intros Hpre Hev Hip run. subst run.
  rewrite (get_service_external_endpoint_at_split who namespace selectors pre post ev e
             i others Hpre Hev).
  project_pairs. unfold ingress_url, py_or.
  assert (Hfalse : truthy (ip i) = false) by (destruct Hip as [-> | ->]; reflexivity).
  rewrite Hfalse. split.
  - now intros h ->.
  - now intros ->.
Qed.

Lemma missing_ip_falls_back_to_hostname_witness :
  let nameless := service_snapshot MODIFIED (Some [{| ip := Some ""; hostname := None |}]) in
  Forall (fun p => waiting_for_ingress p = true) [service_snapshot ADDED None]
  /\ snd (get_service_external_endpoint "predictor" "default" (Some app_predictor)
            {| delivered := [service_snapshot ADDED None] ++ nameless :: [];
               ending := Exhausted |})
     = Ret (Some "http://None:5000/predict").
Proof.
  assert (Hpre : Forall (fun p => waiting_for_ingress p = true) [service_snapshot ADDED None])
    by (repeat constructor).
  split; [exact Hpre|].
  refine (proj2 (missing_ip_falls_back_to_hostname "predictor" "default" app_predictor
                   [service_snapshot ADDED None] []
                   (service_snapshot MODIFIED (Some [{| ip := Some ""; hostname := None |}]))
                   Exhausted {| ip := Some ""; hostname := None |} []
                   Hpre eq_refl (or_intror eq_refl)) eq_refl).
Defined.

Lemma service_event_result (ev ev' : event V1Service) :
  ev_object ev = ev_object ev' ->
  snd (service_event ev) = snd (service_event ev').
Proof.
  unfold service_event. intros ->.
  now destruct (ingress _) as [[|i l]|].
Qed.

Lemma service_loop_result (evs evs' : list (event V1Service)) (e : stream_end) :
  map ev_object evs = map ev_object evs' ->
  snd (for_each service_event evs e) = snd (for_each service_event evs' e).
Proof.
  revert evs'. induction evs as [|ev evs IH]; intros [|ev' evs'] Hmap; try discriminate.
  - reflexivity.
  - simpl in Hmap. injection Hmap as Hobj Hrest. specialize (IH evs' Hrest).
    pose proof (service_event_result ev ev' Hobj) as Hr. simpl.
    destruct (service_event ev) as [t r], (service_event ev') as [t' r'].
    simpl in Hr. subst r'. destruct r as [[|u]|x]; simpl; try reflexivity.
    destruct (for_each service_event evs e), (for_each service_event evs' e). exact IH.
Qed.

(** X5.  Endpoint discovery does not look at the kind of an event: two
    streams that deliver the same service snapshots and end the same way
    give the same result, whatever the events are tagged ([ADDED],
    [MODIFIED] or [DELETED]).  A snapshot with ingress resolves even on a
    [DELETED] event. *)
Theorem endpoint_ignores_event_type
    (who namespace : string) (selectors : option dict) (w w' : stream (event V1Service)) :
  map ev_object (delivered w) = map ev_object (delivered w') ->
  ending w = ending w' ->
  snd (get_service_external_endpoint who namespace selectors w)
  = snd (get_service_external_endpoint who namespace selectors w').
Proof.
  intros Hobj Hend. destruct selectors as [d|]; [|reflexivity].
  rewrite !get_service_external_endpoint_run. unfold for_stream. rewrite <- Hend.
  pose proof (service_loop_result _ _ (ending w) Hobj) as Hsame.
  destruct (for_each service_event (delivered w) (ending w)) as [t r].
  destruct (for_each service_event (delivered w') (ending w)) as [t' r'].
  simpl in Hsame. subst r'. now destruct r.
Qed.

Lemma endpoint_ignores_event_type_witness :
  let ready := {| ip := Some "10.0.0.5"; hostname := None |} in
  snd (get_service_external_endpoint "predictor" "default" (Some app_predictor)
         {| delivered := [service_snapshot DELETED (Some [ready])]; ending := Exhausted |})
  = snd (get_service_external_endpoint "predictor" "default" (Some app_predictor)
           {| delivered := [service_snapshot ADDED (Some [ready])]; ending := Exhausted |}).
Proof.
  exact (endpoint_ignores_event_type "predictor" "default" (Some app_predictor)
           {| delivered := [service_snapshot DELETED
                              (Some [{| ip := Some "10.0.0.5"; hostname := None |}])];
              ending := Exhausted |}
           {| delivered := [service_snapshot ADDED
                              (Some [{| ip := Some "10.0.0.5"; hostname := None |}])];
              ending := Exhausted |}
           eq_refl eq_refl).
Defined.

(** ** Pod log acquisition: the handle request *)

Lemma requests_app (t u : list effect) : requests (t ++ u) = requests t ++ requests u.
Proof. unfold requests. apply flat_map_app. Qed.

Lemma requests_prints (lines : list string) : requests (map Print lines) = [].
Proof. unfold requests. induction lines; simpl; auto. Qed.

Lemma printed_prints (lines : list string) : printed (map Print lines) = lines.
Proof. unfold printed. induction lines; simpl; congruence. Qed.

Lemma in_requests (t : list effect) p n fl c :
  In (ReadPodLog p n fl c) t -> In (p, n, fl, c) (requests t).
Proof.
  induction t as [|f t IH]; simpl; [tauto|].
  intros [-> | Hin]; [now left|].
  unfold requests in *. simpl. apply in_or_app. right. now apply IH.
Qed.

Lemma loop_shape_after api namespace container follow
    (t0 : list effect) (ev0 : event V1Pod) (evs : list (event V1Pod)) run :
  printed t0 = [] -> released t0 = [] -> requests t0 = [] ->
  loop_shape api namespace container follow evs run ->
  loop_shape api namespace container follow (ev0 :: evs) (t0 ++ fst run, snd run).
Proof.
  intros Hp0 Hr0 Hq0 (Hp & Hr & Hcases). unfold loop_shape. simpl fst. simpl snd.
  rewrite printed_app, released_app, requests_app, Hp0, Hr0, Hq0, Hp, Hr.
  repeat split.
  destruct Hcases as [[Hq Hnone] | (ev & Hin & Hq & Hres)]; [left | right]; auto.
  exists ev. repeat split; auto. now right.
Qed.

Lemma loop_shape_open api namespace container follow
    (t0 : list effect) (ev : event V1Pod) (evs : list (event V1Pod)) :
  printed t0 = [] -> released t0 = [] -> requests t0 = [] ->
  loop_shape api namespace container follow (ev :: evs)
    (t0 ++ [open_effect namespace container follow ev],
     handle_for api namespace container follow ev).
Proof.
  intros Hp0 Hr0 Hq0. unfold loop_shape. simpl fst. simpl snd.
  rewrite printed_app, released_app, requests_app, Hp0, Hr0, Hq0.
  repeat split. right. exists ev. repeat split. now left.
Qed.

Lemma pod_loop_shape api namespace container follow
    (evs : list (event V1Pod)) (e : stream_end) :
  loop_shape api namespace container follow evs
    (for_each (pod_event api namespace container follow) evs e).
Proof.
  induction evs as [|ev evs IH]; simpl.
  - destruct e; repeat split; left; split; auto; discriminate.
  - destruct (pod_event_step api namespace container follow ev) as [ | | notice Hn | x ].
    + unfold bind. destruct (for_each _ evs e) as [t r].
      now apply (loop_shape_after _ _ _ _ [pod_debug ev; pod_warning ev] ev evs (t, r)).
    + unfold bind. destruct (for_each _ evs e) as [t r].
      now apply (loop_shape_after _ _ _ _ [pod_debug ev] ev evs (t, r)).
    + assert (Hshape : printed [pod_debug ev; notice] = []
                       /\ released [pod_debug ev; notice] = []
                       /\ requests [pod_debug ev; notice] = [])
        by (destruct notice as [| [] | | | |]; try discriminate; repeat split).
      destruct Hshape as (Hp0 & Hr0 & Hq0).
      pose proof (loop_shape_open api namespace container follow _ ev evs Hp0 Hr0 Hq0) as W.
      unfold bind, open_answer. unfold handle_for in W.
      destruct (api _ _ _ _); exact W.
    + repeat split. left. split; auto. discriminate.
Qed.

(** The three ways a run of [log] can go, by what became of the handle
    request. *)
Lemma log_cases (api : pod_log_api) (who namespace : string) (d : dict)
    (container : string) (follow : bool) (w : stream (event V1Pod)) :
  let run := log api who namespace (Some d) container follow w in
  (requests (fst run) = [] /\ printed (fst run) = [] /\ released (fst run) = [])
  \/ (exists ev x,
        In ev (delivered w)
        /\ api (name (metadata (ev_object ev))) namespace follow container = Raise x
        /\ requests (fst run) = [(name (metadata (ev_object ev)), namespace, follow, container)]
        /\ printed (fst run) = [] /\ released (fst run) = []
        /\ snd run = (if caught x then Ret tt else Raise x)
        /\ (caught x = true -> exists t, fst run = t ++ [status_error who x]))
  \/ (exists ev resp t,
        In ev (delivered w)
        /\ api (name (metadata (ev_object ev))) namespace follow container = Ret resp
        /\ requests t = [(name (metadata (ev_object ev)), namespace, follow, container)]
        /\ printed t = [] /\ released t = []
        /\ fst run = t ++ fst (relay (Some resp))
        /\ snd run = snd (relay (Some resp))).
Proof.
  intros run. subst run. rewrite log_run. unfold for_stream.
  set (intro := [WatchStream list_namespaced_pod namespace (selector_string d)]).
  destruct (pod_loop_shape api namespace container follow (delivered w) (ending w))
    as (Hp & Hr & Hcases).
  destruct (for_each _ (delivered w) (ending w)) as [t r]. simpl in Hp, Hr, Hcases.
  destruct Hcases as [[Hq Hnone] | (ev & Hin & Hq & Hres)].
  - left. destruct r as [[resp|]|x]; cbv beta iota zeta; project_pairs.
    + now destruct (Hnone resp).
    + simpl relay. project_pairs.
      rewrite !requests_app, !printed_app, !released_app, Hq, Hp, Hr. repeat split.
    + destruct (caught x); project_pairs;
        rewrite ?requests_app, ?printed_app, ?released_app, Hq, Hp, Hr; repeat split.
  - right. unfold handle_for in Hres.
    destruct (api _ _ _ _) as [resp|x] eqn:Hapi; subst r; cbv beta iota zeta.
    + right. exists ev, resp, (intro ++ t). project_pairs.
      rewrite requests_app, printed_app, released_app, Hq, Hp, Hr, app_assoc.
      repeat split; auto.
    + left. exists ev, x. destruct (caught x) eqn:Hc; project_pairs;
        rewrite ?requests_app, ?printed_app, ?released_app, Hq, Hp, Hr;
        repeat split; auto; try discriminate.
      intros _. exists (intro ++ t). now rewrite app_assoc.
Qed.

Lemma relay_requests (tail : option HTTPResponse) : requests (fst (relay tail)) = [].
Proof.
  destruct tail as [resp|]; [|reflexivity].
  destruct (relay_trace resp) as [lines ->].
  change (stream_effect resp :: map Print lines ++ [ReleaseConn resp])
    with ([stream_effect resp] ++ map Print lines ++ [ReleaseConn resp]).
  now rewrite !requests_app, requests_prints.
Qed.

(** X6.  In every run, [log] asks for at most one log handle.  The
    request is for the pod named in a delivered event, in the namespace
    and with the [follow] and [container] of the call; the [name]
    argument is never what the handle is asked for. *)
Theorem at_most_one_handle_request
    (api : pod_log_api) (who namespace container : string) (follow : bool)
    (selectors : option dict) (w : stream (event V1Pod)) :
  let run := log api who namespace selectors container follow w in
  requests (fst run) = []
  \/ exists ev,
      In ev (delivered w)
      /\ requests (fst run) = [(name (metadata (ev_object ev)), namespace, follow, container)].
Proof.
  intros run. subst run. destruct selectors as [d|]; [|now left].
  pose proof (log_cases api who namespace d container follow w) as Hcases.
  cbv zeta in Hcases. destruct Hcases
    as [(Hq & _) | [(ev & x & Hin & _ & Hq & _) | (ev & resp & t & Hin & _ & Hq & _ & _ & Ht & _)]].
  - now left.
  - right. now exists ev.
  - right. exists ev. split; [exact Hin|].
    now rewrite Ht, requests_app, Hq, relay_requests.
Qed.

(** X7.  [log] releases only what it was given, and prints only from
    what it was given: a released handle is the cluster's answer to a
    handle request of the same run, and unless a handle is released
    nothing is printed. *)
Theorem released_handle_was_granted
    (api : pod_log_api) (who namespace container : string) (follow : bool)
    (selectors : option dict) (w : stream (event V1Pod)) :
  let run := log api who namespace selectors container follow w in
  (forall resp, In resp (released (fst run)) ->
     exists pod_name,
       In (pod_name, namespace, follow, container) (requests (fst run))
       /\ api pod_name namespace follow container = Ret resp)
  /\ (released (fst run) = [] -> printed (fst run) = []).
Proof.
  intros run. subst run.
  destruct selectors as [d|];
    [|split; [intros resp H; simpl in H; destruct H | reflexivity]].
  pose proof (log_cases api who namespace d container follow w) as Hcases.
  cbv zeta in Hcases. destruct Hcases
    as [(Hq & Hp & Hr) | [(ev & x & Hin & _ & Hq & Hp & Hr & _)
                         | (ev & resp & t & Hin & Hapi & Hq & Hp & Hr & Ht & _)]].
  - rewrite Hr. split; [intros resp []|auto].
  - rewrite Hr. split; [intros resp []|auto].
  - rewrite Ht, released_app, requests_app, Hr, Hq, relay_requests.
    destruct (relay_facts (Some resp)) as (_ & _ & ->). simpl. split.
    + intros resp' [<- | []]. eexists. split; [left; reflexivity | exact Hapi].
    + discriminate.
Qed.

Lemma released_handle_was_granted_witness :
  let run := log (answer_with broken_response) "train" "default" (Some app_predictor) "" true
               {| delivered := [now_ready]; ending := Exhausted |} in
  In broken_response (released (fst run))
  /\ exists pod_name,
      In (pod_name, "default", true, "") (requests (fst run))
      /\ answer_with broken_response pod_name "default" true "" = Ret broken_response.
Proof.
  assert (Hin : In broken_response
                  (released (fst (log (answer_with broken_response) "train" "default"
                                    (Some app_predictor) "" true
                                    {| delivered := [now_ready]; ending := Exhausted |}))))
    by (simpl; tauto).
  split; [exact Hin|].
  exact (proj1 (released_handle_was_granted (answer_with broken_response) "train" "default"
                  "" true (Some app_predictor)
                  {| delivered := [now_ready]; ending := Exhausted |})
           broken_response Hin).
Defined.

(** ** Pod log acquisition: relaying the body *)

Lemma print_chunk_decodes (chunk : bytes) :
  utf8_valid (rstrip chunk) = true ->
  print_chunk chunk = ([Print (line_of chunk)], Ret Next).
Proof. unfold print_chunk, decode_utf8, line_of. now intros ->. Qed.

Lemma print_chunk_fails (chunk : bytes) :
  utf8_valid (rstrip chunk) = false ->
  print_chunk chunk = ([], Raise (decode_error (rstrip chunk))).
Proof. unfold print_chunk, decode_utf8, decode_error. now intros ->. Qed.

Lemma decoding_chunks_skip (chunks : list bytes) :
  Forall (fun c => utf8_valid (rstrip c) = true) chunks ->
  Forall (fun c => snd (print_chunk c) = Ret Next) chunks
  /\ flat_map (fun c => fst (print_chunk c)) chunks = map Print (map line_of chunks).
Proof.
  induction 1 as [|c chunks Hc _ [IH1 IH2]]; simpl; [now split|].
  rewrite IH2, (print_chunk_decodes c Hc). split; [|reflexivity].
  constructor; [|exact IH1]. now rewrite (print_chunk_decodes c Hc).
Qed.

(** The read of a body all of whose chunks decode. *)
Lemma relay_decoding (resp : HTTPResponse) :
  Forall (fun c => utf8_valid (rstrip c) = true) (delivered (body resp)) ->
  relay (Some resp)
  = (stream_effect resp :: map Print (map line_of (delivered (body resp)))
       ++ [ReleaseConn resp],
     match ending (body resp) with
     | Exhausted => Ret tt
     | Fails x => Raise x
     end).
Proof.
  intros Hall. destruct (decoding_chunks_skip _ Hall) as [Hskip Htrace].
  unfold relay, for_stream. rewrite bind_emit, (for_each_all_skipped _ _ _ Hskip), Htrace.
  unfold try_finally, emit, stream_effect.
  destruct (ending (body resp)); simpl; [now rewrite app_nil_r | reflexivity].
Qed.

(** The read of a body that has a chunk that does not decode. *)
Lemma relay_undecodable (resp : HTTPResponse) (good rest : list bytes) (bad : bytes) :
  delivered (body resp) = good ++ bad :: rest ->
  Forall (fun c => utf8_valid (rstrip c) = true) good ->
  utf8_valid (rstrip bad) = false ->
  relay (Some resp)
  = (stream_effect resp :: map Print (map line_of good) ++ [ReleaseConn resp],
     Raise (decode_error (rstrip bad))).
Proof.
  intros Hsplit Hgood Hbad. destruct (decoding_chunks_skip _ Hgood) as [Hskip Htrace].
  unfold relay, for_stream. rewrite bind_emit, Hsplit, (for_each_skips _ _ _ _ Hskip), Htrace.
  rewrite (for_each_raises _ bad rest _ (decode_error (rstrip bad)))
    by now rewrite (print_chunk_fails bad Hbad).
  rewrite (print_chunk_fails bad Hbad).
  unfold try_finally, emit, stream_effect. simpl. now rewrite app_nil_r.
Qed.

(** A run in which the handle request was answered goes on with the read
    of that answer. *)
Lemma log_with_handle (api : pod_log_api) (who namespace container : string) (follow : bool)
    (selectors : option dict) (w : stream (event V1Pod))
    (pod_name namespace' container' : string) (follow' : bool) (resp : HTTPResponse) :
  In (ReadPodLog pod_name namespace' follow' container')
     (fst (log api who namespace selectors container follow w)) ->
  api pod_name namespace' follow' container' = Ret resp ->
  exists t,
    printed t = [] /\ released t = []
    /\ fst (log api who namespace selectors container follow w) = t ++ fst (relay (Some resp))
    /\ snd (log api who namespace selectors container follow w) = snd (relay (Some resp)).
Proof.
  destruct selectors as [d|]; [|intros []].
  intros Hin Hapi. apply in_requests in Hin.
  pose proof (log_cases api who namespace d container follow w) as Hcases.
  cbv zeta in Hcases. destruct Hcases
    as [(Hq & _) | [(ev & x & _ & Hx & Hq & _)
                   | (ev & resp' & t & _ & Hapi' & Hq & Hp & Hr & Ht & Hres)]].
  - rewrite Hq in Hin. destruct Hin.
  - rewrite Hq in Hin. destruct Hin as [Heq | []].
    injection Heq as <- <- <- <-. congruence.
  - rewrite Ht, requests_app, Hq, relay_requests in Hin. destruct Hin as [Heq | []].
    injection Heq as <- <- <- <-.
    assert (resp' = resp) by congruence. subst resp'.
    exists t. auto.
Qed.

(** A run in which the handle request was refused. *)
Lemma log_refused (api : pod_log_api) (who namespace container : string) (follow : bool)
    (selectors : option dict) (w : stream (event V1Pod))
    (pod_name namespace' container' : string) (follow' : bool) (x : exn) :
  In (ReadPodLog pod_name namespace' follow' container')
     (fst (log api who namespace selectors container follow w)) ->
  api pod_name namespace' follow' container' = Raise x ->
  printed (fst (log api who namespace selectors container follow w)) = []
  /\ released (fst (log api who namespace selectors container follow w)) = []
  /\ snd (log api who namespace selectors container follow w)
     = (if caught x then Ret tt else Raise x)
  /\ (caught x = true ->
      exists t, fst (log api who namespace selectors container follow w)
                = t ++ [status_error who x]).
Proof.
  destruct selectors as [d|]; [|intros []].
  intros Hin Hapi. apply in_requests in Hin.
  pose proof (log_cases api who namespace d container follow w) as Hcases.
  cbv zeta in Hcases. destruct Hcases
    as [(Hq & _) | [(ev & x' & _ & Hx & Hq & Hp & Hr & Hres & Hlast)
                   | (ev & resp' & t & _ & Hapi' & Hq & Hp & Hr & Ht & Hres)]].
  - rewrite Hq in Hin. destruct Hin.
  - rewrite Hq in Hin. destruct Hin as [Heq | []].
    injection Heq as <- <- <- <-.
    assert (x' = x) by congruence. subst x'. auto.
  - rewrite Ht, requests_app, Hq, relay_requests in Hin. destruct Hin as [Heq | []].
    injection Heq as <- <- <- <-. congruence.
Qed.

(** X8.  When [log] obtained a handle whose body ends normally and all of
    whose chunks decode, it prints one line per chunk, in order, each the
    chunk without its trailing whitespace, and returns normally. *)
Theorem drained_body_printed_chunk_by_chunk
    (api : pod_log_api) (who namespace container : string) (follow : bool)
    (selectors : option dict) (w : stream (event V1Pod))
    (pod_name namespace' container' : string) (follow' : bool) (resp : HTTPResponse) :
  let run := log api who namespace selectors container follow w in
  In (ReadPodLog pod_name namespace' follow' container') (fst run) ->
  api pod_name namespace' follow' container' = Ret resp ->
  Forall (fun c => utf8_valid (rstrip c) = true) (delivered (body resp)) ->
  ending (body resp) = Exhausted ->
  snd run = Ret tt
  /\ printed (fst run) = map line_of (delivered (body resp)).
Proof.
  intros run Hin Hapi Hall Hend. subst run.
  destruct (log_with_handle _ _ _ _ _ _ _ _ _ _ _ _ Hin Hapi) as (t & Hp & _ & -> & ->).
  rewrite (relay_decoding resp Hall), Hend. project_pairs. split; [reflexivity|].
  change (stream_effect resp :: map Print (map line_of (delivered (body resp)))
            ++ [ReleaseConn resp])
    with ([stream_effect resp] ++ map Print (map line_of (delivered (body resp)))
            ++ [ReleaseConn resp]).
  rewrite !printed_app, Hp, printed_prints. simpl. now rewrite app_nil_r.
Qed.

Lemma drained_body_printed_chunk_by_chunk_witness :
  let run := log (answer_with whole_response) "train" "default" (Some app_predictor) "" true
               {| delivered := slow_start ++ [now_ready]; ending := Exhausted |} in
  In (ReadPodLog "train-0" "default" true "") (fst run)
  /\ snd run = Ret tt
  /\ printed (fst run) = ["epoch 1"; "epoch 2"].
Proof.
  assert (Hin : In (ReadPodLog "train-0" "default" true "")
                  (fst (log (answer_with whole_response) "train" "default"
                          (Some app_predictor) "" true
                          {| delivered := slow_start ++ [now_ready]; ending := Exhausted |})))
    by (simpl; tauto).
  split; [exact Hin|].
  refine (drained_body_printed_chunk_by_chunk (answer_with whole_response) "train" "default"
            "" true (Some app_predictor)
            {| delivered := slow_start ++ [now_ready]; ending := Exhausted |}
            "train-0" "default" "" true whole_response Hin eq_refl _ eq_refl).
  repeat constructor.
Defined.

(** X9.  An exception raised while the body is read is not handled by
    [log]: after the lines read so far are printed and the handle is
    released, it reaches the caller as it is.  This holds for
    [ValueError] and [ApiException] too: the two [except] clauses cover
    the watch only. *)
Theorem body_read_error_reaches_caller
    (api : pod_log_api) (who namespace container : string) (follow : bool)
    (selectors : option dict) (w : stream (event V1Pod))
    (pod_name namespace' container' : string) (follow' : bool) (resp : HTTPResponse)
    (x : exn) :
  let run := log api who namespace selectors container follow w in
  In (ReadPodLog pod_name namespace' follow' container') (fst run) ->
  api pod_name namespace' follow' container' = Ret resp ->
  Forall (fun c => utf8_valid (rstrip c) = true) (delivered (body resp)) ->
  ending (body resp) = Fails x ->
  snd run = Raise x
  /\ printed (fst run) = map line_of (delivered (body resp))
  /\ released (fst run) = [resp].
Proof.
  intros run Hin Hapi Hall Hend. subst run.
  destruct (log_with_handle _ _ _ _ _ _ _ _ _ _ _ _ Hin Hapi) as (t & Hp & Hr & -> & ->).
  rewrite (relay_decoding resp Hall), Hend. project_pairs. split; [reflexivity|].
  change (stream_effect resp :: map Print (map line_of (delivered (body resp)))
            ++ [ReleaseConn resp])
    with ([stream_effect resp] ++ map Print (map line_of (delivered (body resp)))
            ++ [ReleaseConn resp]).
  rewrite !printed_app, !released_app, Hp, Hr, printed_prints, released_prints. simpl.
  now rewrite app_nil_r.
Qed.

Lemma body_read_error_reaches_caller_witness :
  let refused := {| body := {| delivered := [list_byte_of_string "epoch 1 "];
                               ending := Fails (ApiException "(500) Internal") |} |} in
  let run := log (answer_with refused) "train" "default" (Some app_predictor) "" true
               {| delivered := [now_ready]; ending := Exhausted |} in
  In (ReadPodLog "train-0" "default" true "") (fst run)
  /\ snd run = Raise (ApiException "(500) Internal")
  /\ printed (fst run) = ["epoch 1"].
Proof.
  set (refused := {| body := {| delivered := [list_byte_of_string "epoch 1 "];
                                ending := Fails (ApiException "(500) Internal") |} |}).
  assert (Hin : In (ReadPodLog "train-0" "default" true "")
                  (fst (log (answer_with refused) "train" "default"
                          (Some app_predictor) "" true
                          {| delivered := [now_ready]; ending := Exhausted |})))
    by (simpl; tauto).
  split; [exact Hin|].
  assert (Hall : Forall (fun c => utf8_valid (rstrip c) = true) (delivered (body refused)))
    by (repeat constructor).
  destruct (body_read_error_reaches_caller (answer_with refused) "train" "default"
              "" true (Some app_predictor)
              {| delivered := [now_ready]; ending := Exhausted |}
              "train-0" "default" "" true refused (ApiException "(500) Internal")
              Hin eq_refl Hall eq_refl) as (Hres & Hprinted & _).
  split; [exact Hres | exact Hprinted].
Defined.

(** X10.  A chunk that is not valid UTF-8 once its trailing whitespace is
    stripped (for one, a character cut by the chunk boundary) ends the
    relay: the lines of the chunks before it are printed, later chunks are
    never read, the handle is released and a [UnicodeDecodeError] reaches
    the caller. *)
Theorem undecodable_chunk_ends_relay
    (api : pod_log_api) (who namespace container : string) (follow : bool)
    (selectors : option dict) (w : stream (event V1Pod))
    (pod_name namespace' container' : string) (follow' : bool) (resp : HTTPResponse)
    (good rest : list bytes) (bad : bytes) :
  let run := log api who namespace selectors container follow w in
  In (ReadPodLog pod_name namespace' follow' container') (fst run) ->
  api pod_name namespace' follow' container' = Ret resp ->
  delivered (body resp) = good ++ bad :: rest ->
  Forall (fun c => utf8_valid (rstrip c) = true) good ->
  utf8_valid (rstrip bad) = false ->
  (exists msg, snd run = Raise (UnicodeDecodeError msg))
  /\ printed (fst run) = map line_of good
  /\ released (fst run) = [resp].
Proof.
  intros run Hin Hapi Hsplit Hgood Hbad. subst run.
  destruct (log_with_handle _ _ _ _ _ _ _ _ _ _ _ _ Hin Hapi) as (t & Hp & Hr & -> & ->).
  rewrite (relay_undecodable resp good rest bad Hsplit Hgood Hbad). project_pairs.
  split; [now exists (decode_error_text (rstrip bad))|].
  change (stream_effect resp :: map Print (map line_of good) ++ [ReleaseConn resp])
    with ([stream_effect resp] ++ map Print (map line_of good) ++ [ReleaseConn resp]).
  rewrite !printed_app, !released_app, Hp, Hr, printed_prints, released_prints. simpl.
  now rewrite app_nil_r.
Qed.

Lemma undecodable_chunk_ends_relay_witness :
  let run := log (answer_with split_response) "train" "default" (Some app_predictor) "" true
               {| delivered := [now_ready]; ending := Exhausted |} in
  In (ReadPodLog "train-0" "default" true "") (fst run)
  /\ utf8_valid (rstrip [x63; x61; x66; xc3]) = false
  /\ snd run = Raise (UnicodeDecodeError
                        "'utf-8' codec can't decode byte 0xc3 in position 3: unexpected end of data")
  /\ (exists msg, snd run = Raise (UnicodeDecodeError msg))
  /\ printed (fst run) = ["ok"]
  /\ released (fst run) = [split_response].
Proof.
  assert (Hin : In (ReadPodLog "train-0" "default" true "")
                  (fst (log (answer_with split_response) "train" "default"
                          (Some app_predictor) "" true
                          {| delivered := [now_ready]; ending := Exhausted |})))
    by (simpl; tauto).
  split; [exact Hin|]. split; [reflexivity|]. split; [reflexivity|].
  refine (undecodable_chunk_ends_relay (answer_with split_response) "train" "default"
            "" true (Some app_predictor)
            {| delivered := [now_ready]; ending := Exhausted |}
            "train-0" "default" "" true split_response
            [list_byte_of_string "ok "] [[xa9]] [x63; x61; x66; xc3]
            Hin eq_refl eq_refl _ eq_refl).
  repeat constructor.
Defined.

(** X11.  When the cluster refuses the handle request with an
    [ApiException] or a [ValueError] (subclasses such as
    [UnicodeDecodeError] included), the refusal is swallowed like a stream
    error: [log] logs one [ERROR] diagnostic and returns normally,
    having printed and released nothing.  Any other exception of the
    request reaches the caller. *)
Theorem refused_handle_request_is_swallowed
    (api : pod_log_api) (who namespace container : string) (follow : bool)
    (selectors : option dict) (w : stream (event V1Pod))
    (pod_name namespace' container' : string) (follow' : bool) (x : exn) :
  let run := log api who namespace selectors container follow w in
  In (ReadPodLog pod_name namespace' follow' container') (fst run) ->
  api pod_name namespace' follow' container' = Raise x ->
  printed (fst run) = [] /\ released (fst run) = []
  /\ (caught x = true ->
      snd run = Ret tt /\ exists t, fst run = t ++ [status_error who x])
  /\ (caught x = false -> snd run = Raise x).
Proof.
  intros run Hin Hapi. subst run.
  destruct (log_refused _ _ _ _ _ _ _ _ _ _ _ _ Hin Hapi) as (Hp & Hr & Hres & Hlast).
  split; [exact Hp|]. split; [exact Hr|]. split.
  - intros Hc. rewrite Hres, Hc. split; [reflexivity | exact (Hlast Hc)].
  - intros Hc. now rewrite Hres, Hc.
Qed.

Lemma refused_handle_request_is_swallowed_witness :
  let gone := ApiException "(404) Not Found" in
  let run := log (refuse_with gone) "train" "default" (Some app_predictor) "" true
               {| delivered := [now_ready]; ending := Exhausted |} in
  In (ReadPodLog "train-0" "default" true "") (fst run)
  /\ snd run = Ret tt
  /\ printed (fst run) = []
  /\ exists t, fst run = t ++ [Logger ERROR "error getting status for train (404) Not Found" []].
Proof.
  assert (Hin : In (ReadPodLog "train-0" "default" true "")
                  (fst (log (refuse_with (ApiException "(404) Not Found")) "train" "default"
                          (Some app_predictor) "" true
                          {| delivered := [now_ready]; ending := Exhausted |})))
    by (simpl; tauto).
  split; [exact Hin|].
  destruct (refused_handle_request_is_swallowed
              (refuse_with (ApiException "(404) Not Found")) "train" "default"
              "" true (Some app_predictor)
              {| delivered := [now_ready]; ending := Exhausted |}
              "train-0" "default" "" true (ApiException "(404) Not Found")
              Hin eq_refl) as (Hp & _ & Hcaught & _).
  destruct (Hcaught eq_refl) as [Hres Hlast].
  split; [exact Hres|]. split; [exact Hp | exact Hlast].
Defined.

(** ** Pod log acquisition: events the dispatch does not provide for *)

(** The run of [log] up to an event on which the loop body raises an
    exception that no [except] clause names. *)
Lemma log_crash (api : pod_log_api) (who namespace : string) (d : dict)
    (container : string) (follow : bool) (pre post : list (event V1Pod))
    (ev : event V1Pod) (e : stream_end) (x : exn) :
  Forall (fun p => snd (pod_event api namespace container follow p) = Ret Next) pre ->
  pod_event api namespace container follow ev = ([pod_debug ev], Raise x) ->
  caught x = false ->
  log api who namespace (Some d) container follow
    {| delivered := pre ++ ev :: post; ending := e |}
  = ([WatchStream list_namespaced_pod namespace (selector_string d)]
       ++ flat_map (fun p => fst (pod_event api namespace container follow p)) pre
       ++ [pod_debug ev],
     Raise x).
Proof.
  intros Hskip Hev Hx. rewrite log_run. unfold for_stream. simpl delivered. simpl ending.
  rewrite (for_each_skips _ _ _ _ Hskip).
  rewrite (for_each_raises _ ev post e x) by now rewrite Hev.
  rewrite Hev. project_pairs. cbv beta iota zeta. now rewrite Hx.
Qed.

Lemma log_crash_facts (api : pod_log_api) (who namespace : string) (d : dict)
    (container : string) (follow : bool) (pre post : list (event V1Pod))
    (ev : event V1Pod) (e : stream_end) (x : exn) :
  Forall (fun p => still_starting p = true) pre ->
  pod_event api namespace container follow ev = ([pod_debug ev], Raise x) ->
  caught x = false ->
  let run := log api who namespace (Some d) container follow
               {| delivered := pre ++ ev :: post; ending := e |} in
  snd run = Raise x /\ opens (fst run) = 0 /\ printed (fst run) = []
  /\ pulled (fst run) = S (List.length pre).
Proof.
  intros Hpre Hev Hx run. subst run.
  assert (Hskip : Forall (fun p => snd (pod_event api namespace container follow p) = Ret Next) pre).
  { revert Hpre. apply Forall_impl. intros p. apply still_starting_skips. }
  rewrite (log_crash _ _ _ _ _ _ _ _ _ _ _ Hskip Hev Hx). project_pairs.
  destruct (skipped_facts _ _ _ _ _ Hskip) as (Ho & Hp & Hl & _).
  rewrite !opens_app, !printed_app, !pulled_app, Ho, Hp, Hl.
  repeat split. cbn. lia.
Qed.


Lemma pod_event_no_status api namespace container follow (ev : event V1Pod) :
  pod_phase_of ev <> Pending ->
  has_first_status ev = false ->
  pod_event api namespace container follow ev
  = ([pod_debug ev],
     Raise (match statuses_of ev with None => type_error | Some _ => index_error end)).
Proof.
  destruct ev as [ty [[pod_name] [ph cs]]].
  unfold has_first_status, pod_phase_of, statuses_of. simpl. intros Hph Hcs.
  destruct cs as [[|c others]|]; try discriminate;
    destruct ph; try congruence; destruct ty; reflexivity.
Qed.

Lemma pod_event_terminated_unnoticed api namespace container follow (ev : event V1Pod) :
  terminated_unnoticed ev = true ->
  pod_event api namespace container follow ev = ([pod_debug ev], Ret Next).
Proof.
  destruct ev as [ty [[pod_name] [ph cs]]].
  unfold terminated_unnoticed, pod_phase_of, statuses_of. simpl.
  destruct ty; simpl; try discriminate;
    destruct ph; simpl; try discriminate;
    destruct cs as [[|[rd [rn tm wt]] others]|]; simpl; try discriminate;
    destruct rd, tm, wt; simpl; try discriminate; reflexivity.
Qed.



(** X13.  Only the [Pending] branch does without container statuses.  On
    a snapshot of any other phase [log] indexes them: when they are
    [None] it raises [TypeError], when they are the empty list
    [IndexError], in both cases before any handle request, and the error
    reaches the caller. *)
Theorem missing_statuses_raise_outside_pending
    (api : pod_log_api) (who namespace container : string) (follow : bool)
    (selectors : dict) (pre post : list (event V1Pod)) (ev : event V1Pod) (e : stream_end) :
  Forall (fun p => still_starting p = true) pre ->
  pod_phase_of ev <> Pending ->
  has_first_status ev = false ->
  let run := log api who namespace (Some selectors) container follow
               {| delivered := pre ++ ev :: post; ending := e |} in
  snd run = Raise (match statuses_of ev with None => type_error | Some _ => index_error end)
  /\ opens (fst run) = 0 /\ printed (fst run) = []
  /\ pulled (fst run) = S (List.length pre).
Proof.
  intros Hpre Hph Hcs.
  apply log_crash_facts; auto.
  - now apply pod_event_no_status.
  - now destruct (statuses_of ev).
Qed.

Lemma missing_statuses_raise_outside_pending_witness :
  let evicted := pod_snapshot MODIFIED "train-0" Failed None in
  let run := log (answer_with whole_response) "train" "default" (Some app_predictor) "" true
               {| delivered := [pod_snapshot ADDED "train-0" Pending None] ++ evicted :: [];
                  ending := Exhausted |} in
  Forall (fun p => still_starting p = true) [pod_snapshot ADDED "train-0" Pending None]
  /\ snd run = Raise type_error
  /\ opens (fst run) = 0 /\ printed (fst run) = []
  /\ pulled (fst run) = 2.
Proof.
  assert (Hpre : Forall (fun p => still_starting p = true)
                   [pod_snapshot ADDED "train-0" Pending None])
    by (repeat constructor).
  split; [exact Hpre|].
  refine (missing_statuses_raise_outside_pending (answer_with whole_response)
            "train" "default" "" true app_predictor
            [pod_snapshot ADDED "train-0" Pending None] []
            (pod_snapshot MODIFIED "train-0" Failed None)
            Exhausted Hpre _ eq_refl).
  discriminate.
Defined.

(** X14.  A terminated first container is not a failure by itself: while
    the pod is [Running] or [Unknown] and the event is not [DELETED], the
    failure test looks at the waiting state only, so [log] neither
    reports the terminated state nor asks for a handle, and goes on to
    the next event.  A watch made of such events and of still-starting
    ones ends without a handle and without an [ERROR] diagnostic. *)
Theorem terminated_container_goes_unnoticed
    (api : pod_log_api) (who namespace container : string) (follow : bool)
    (selectors : dict) (evs : list (event V1Pod)) :
  Forall (fun p => still_starting p = true \/ terminated_unnoticed p = true) evs ->
  let run := log api who namespace (Some selectors) container follow
               {| delivered := evs; ending := Exhausted |} in
  snd run = Ret tt
  /\ opens (fst run) = 0 /\ errors (fst run) = 0 /\ printed (fst run) = []
  /\ pulled (fst run) = List.length evs.
Proof.
  intros Hevs run. subst run.
  assert (Hskip : Forall (fun p => snd (pod_event api namespace container follow p) = Ret Next) evs).
  { revert Hevs. apply Forall_impl. intros p [Hp | Hp].
    - now apply still_starting_skips.
    - now rewrite (pod_event_terminated_unnoticed _ _ _ _ p Hp). }
  rewrite (log_all_skipped _ _ _ _ _ _ _ _ Hskip).
  cbv beta iota zeta. project_pairs.
  destruct (skipped_facts _ _ _ _ _ Hskip) as (Ho & Hp & Hl & _).
  rewrite errors_app, pulled_app, opens_app, printed_app,
    (skipped_errors _ _ _ _ _ Hskip), Ho, Hp, Hl.
  repeat split.
Qed.

Lemma terminated_container_goes_unnoticed_witness :
  let crashed := pod_snapshot MODIFIED "train-0" Running
                   (Some [{| ready := false; state := state_terminated "Error" "exit 1" |}]) in
  let run := log (answer_with whole_response) "train" "default" (Some app_predictor) "" true
               {| delivered := [pod_snapshot ADDED "train-0" Pending None; crashed];
                  ending := Exhausted |} in
  terminated_unnoticed crashed = true
  /\ snd run = Ret tt
  /\ opens (fst run) = 0 /\ errors (fst run) = 0 /\ printed (fst run) = []
  /\ pulled (fst run) = 2.
Proof.
  split; [reflexivity|].
  refine (terminated_container_goes_unnoticed (answer_with whole_response)
            "train" "default" "" true app_predictor
            [pod_snapshot ADDED "train-0" Pending None;
             pod_snapshot MODIFIED "train-0" Running
               (Some [{| ready := false; state := state_terminated "Error" "exit 1" |}])] _).
  constructor; [left; reflexivity|]. constructor; [right; reflexivity|]. constructor.
Defined.

(** ** What is printed *)

Lemma ends_in_space_cons (b : byte) (l : bytes) :
  l <> [] -> ends_in_space (b :: l) = ends_in_space l.
Proof.
  unfold ends_in_space. simpl. intros Hl.
  destruct (rev l) as [|last front] eqn:Hrev; [|reflexivity].
  apply (f_equal (@rev byte)) in Hrev. rewrite rev_involutive in Hrev. now destruct Hl.
Qed.

(** [rstrip] leaves no trailing whitespace. *)
Lemma rstrip_ends_clean (bs : bytes) : ends_in_space (rstrip bs) = false.
Proof.
  induction bs as [|b bs IH]; simpl; [reflexivity|].
  destruct (rstrip bs) as [|k kept] eqn:Hk.
  - destruct (is_space b) eqn:Hb; [reflexivity|]. unfold ends_in_space. simpl. exact Hb.
  - rewrite ends_in_space_cons by discriminate. exact IH.
Qed.

(** Every line the chunk loop prints is the line of one of the chunks. *)
Lemma print_chunks_lines (chunks : list bytes) (e : stream_end) (line : string) :
  In line (printed (fst (for_each print_chunk chunks e))) ->
  exists chunk, In chunk chunks /\ line = line_of chunk.
Proof.
  induction chunks as [|c chunks IH]; simpl.
  - destruct e; intros [].
  - destruct (utf8_valid (rstrip c)) eqn:Hc.
    + rewrite (print_chunk_decodes c Hc). unfold bind.
      destruct (for_each print_chunk chunks e) as [t r]. simpl in *.
      intros [<- | Hin]; [now exists c; auto|].
      destruct (IH Hin) as (chunk & Hchunk & ->). exists chunk. auto.
    + rewrite (print_chunk_fails c Hc). intros [].
Qed.

Lemma relay_printed (resp : HTTPResponse) :
  printed (fst (relay (Some resp)))
  = printed (fst (for_each print_chunk (delivered (body resp)) (ending (body resp)))).
Proof.
  unfold relay, for_stream. rewrite bind_emit. unfold try_finally, emit.
  destruct (for_each print_chunk _ _) as [t [v|x]]; simpl.
  - now rewrite app_nil_r, printed_app, app_nil_r.
  - now rewrite printed_app, app_nil_r.
Qed.

(** X17.  Whatever the cluster delivers, no line that [log] prints ends
    in ASCII whitespace: every printed line is a chunk of the body with
    its trailing whitespace removed, so a space or newline that falls at
    the end of a chunk is lost. *)
Theorem printed_lines_have_no_trailing_whitespace
    (api : pod_log_api) (who namespace container : string) (follow : bool)
    (selectors : option dict) (w : stream (event V1Pod)) (line : string) :
  In line (printed (fst (log api who namespace selectors container follow w))) ->
  ends_in_space (list_byte_of_string line) = false
  /\ exists pod_name resp chunk,
      api pod_name namespace follow container = Ret resp
      /\ In chunk (delivered (body resp))
      /\ list_byte_of_string line = rstrip chunk.
Proof.
  destruct selectors as [d|]; [|intros []].
  pose proof (log_cases api who namespace d container follow w) as Hcases.
  cbv zeta in Hcases. destruct Hcases
    as [(_ & Hp & _) | [(ev & x & _ & _ & _ & Hp & _)
                       | (ev & resp & t & _ & Hapi & _ & Hp & _ & Ht & _)]].
  - rewrite Hp. intros [].
  - rewrite Hp. intros [].
  - rewrite Ht, printed_app, Hp, relay_printed. simpl. intros Hin.
    destruct (print_chunks_lines _ _ _ Hin) as (chunk & Hchunk & ->).
    unfold line_of. rewrite list_byte_of_string_of_list_byte. split.
    + apply rstrip_ends_clean.
    + now exists (name (metadata (ev_object ev))), resp, chunk.
Qed.

Lemma printed_lines_have_no_trailing_whitespace_witness :
  let run := log (answer_with whole_response) "train" "default" (Some app_predictor) "" true
               {| delivered := [now_ready]; ending := Exhausted |} in
  In "epoch 1" (printed (fst run))
  /\ ends_in_space (list_byte_of_string "epoch 1") = false.
Proof.
  assert (Hin : In "epoch 1"
                  (printed (fst (log (answer_with whole_response) "train" "default"
                                   (Some app_predictor) "" true
                                   {| delivered := [now_ready]; ending := Exhausted |}))))
    by (simpl; tauto).
  split; [exact Hin|].
  exact (proj1 (printed_lines_have_no_trailing_whitespace (answer_with whole_response)
                  "train" "default" "" true (Some app_predictor)
                  {| delivered := [now_ready]; ending := Exhausted |} "epoch 1" Hin)).
Defined.

Lemma ascii_is_utf8 (bs : bytes) :
  Forall (fun b => is_ascii b = true) bs -> utf8_valid bs = true.
Proof.
  induction 1 as [|b bs Hb _ IH]; [reflexivity|].
  simpl. unfold is_ascii in Hb. now rewrite Hb.
Qed.

Lemma rstrip_keeps_ascii (bs : bytes) :
  Forall (fun b => is_ascii b = true) bs ->
  Forall (fun b => is_ascii b = true) (rstrip bs).
Proof.
  induction 1 as [|b bs Hb _ IH]; simpl; [constructor|].
  destruct (rstrip bs) as [|k kept].
  - destruct (is_space b); constructor; auto.
  - constructor; auto.
Qed.

(** X18.  A log body made of ASCII bytes only never fails to decode: when
    it ends normally [log] prints every chunk and returns normally. *)
Theorem ascii_body_is_relayed_in_full
    (api : pod_log_api) (who namespace container : string) (follow : bool)
    (selectors : option dict) (w : stream (event V1Pod))
    (pod_name namespace' container' : string) (follow' : bool) (resp : HTTPResponse) :
  let run := log api who namespace selectors container follow w in
  In (ReadPodLog pod_name namespace' follow' container') (fst run) ->
  api pod_name namespace' follow' container' = Ret resp ->
  Forall (Forall (fun b => is_ascii b = true)) (delivered (body resp)) ->
  ending (body resp) = Exhausted ->
  snd run = Ret tt
  /\ List.length (printed (fst run)) = List.length (delivered (body resp))
  /\ printed (fst run) = map line_of (delivered (body resp)).
Proof.
  intros run Hin Hapi Hascii Hend. subst run.
  assert (Hall : Forall (fun c => utf8_valid (rstrip c) = true) (delivered (body resp))).
  { revert Hascii. apply Forall_impl. intros c Hc.
    now apply ascii_is_utf8, rstrip_keeps_ascii. }
  destruct (log_with_handle _ _ _ _ _ _ _ _ _ _ _ _ Hin Hapi) as (t & Hp & _ & -> & ->).
  rewrite (relay_decoding resp Hall), Hend. project_pairs.
  change (stream_effect resp :: map Print (map line_of (delivered (body resp)))
            ++ [ReleaseConn resp])
    with ([stream_effect resp] ++ map Print (map line_of (delivered (body resp)))
            ++ [ReleaseConn resp]).
  rewrite !printed_app, Hp, printed_prints. simpl. rewrite app_nil_r.
  repeat split. now rewrite length_map.
Qed.

Lemma ascii_body_is_relayed_in_full_witness :
  let run := log (answer_with whole_response) "train" "default" (Some app_predictor) "" true
               {| delivered := [now_ready]; ending := Exhausted |} in
  In (ReadPodLog "train-0" "default" true "") (fst run)
  /\ Forall (Forall (fun b => is_ascii b = true)) (delivered (body whole_response))
  /\ snd run = Ret tt
  /\ List.length (printed (fst run)) = 2.
Proof.
  assert (Hin : In (ReadPodLog "train-0" "default" true "")
                  (fst (log (answer_with whole_response) "train" "default"
                          (Some app_predictor) "" true
                          {| delivered := [now_ready]; ending := Exhausted |})))
    by (simpl; tauto).
  assert (Hascii : Forall (Forall (fun b => is_ascii b = true))
                     (delivered (body whole_response)))
    by (repeat constructor).
  split; [exact Hin|]. split; [exact Hascii|].
  destruct (ascii_body_is_relayed_in_full (answer_with whole_response) "train" "default"
              "" true (Some app_predictor)
              {| delivered := [now_ready]; ending := Exhausted |}
              "train-0" "default" "" true whole_response Hin eq_refl Hascii eq_refl)
    as (Hres & Hlen & _).
  split; [exact Hres | exact Hlen].
Defined.

(** ** The label selector, once more *)

Lemma selector_string_pair (k v : string) : selector_string [(k, v)] = k +++ "=" +++ v.
Proof. reflexivity. Qed.

(** X19.  Keys and values are written into the selector string as they
    are, with no quoting: a single pair whose value spells out a second
    pair gives the same selector string as the two pairs, so the cluster
    cannot tell the two mappings apart. *)
Theorem selector_values_are_not_escaped (k v k' v' : string) :
  selector_string [(k, v +++ ", " +++ k' +++ "=" +++ v')]
  = selector_string [(k, v); (k', v')].
Proof.
  rewrite (selector_string_cons k v [(k', v')]) by discriminate.
  rewrite !selector_string_pair. reflexivity.
Qed.

Lemma append_empty (a b : string) : a +++ b = "" -> a = "" /\ b = "".
Proof. destruct a; simpl; [auto | discriminate]. Qed.

(** X20.  The selector string is empty for the empty mapping and for no
    other: only a call with an empty [selectors] watches the whole
    namespace. *)
Theorem selector_empty_only_for_empty_mapping (d : dict) :
  selector_string d = "" <-> d = [].
Proof.
  split; [|now intros ->].
  destruct d as [|[k v] d]; [reflexivity|]. intros H. exfalso.
  destruct d as [|kv d].
  - rewrite selector_string_pair in H.
    apply append_empty in H. destruct H as [_ H]. discriminate.
  - rewrite (selector_string_cons k v (kv :: d)) in H by discriminate.
    apply append_empty in H. destruct H as [_ H]. discriminate.
Qed.

(** ** Custom-resource creation, once more *)

(** X15.  Only [ApiException] is re-classified.  Any other exception of
    the API call leaves [create_tf_job] and [create_kfserving] as it is;
    and for an [ApiException] the raised [RuntimeError] does not depend
    on what the API said: status, reason and body of the rejection are
    dropped. *)
Theorem creation_reclassifies_api_exception_only
    (tf_group tf_version tf_plural kf_group kf_version kf_plural : string)
    (manifest api_object : Type) (api api' : custom_objects_api manifest api_object)
    (namespace : string) (body : manifest) :
  (forall x, (forall m, x <> ApiException m) ->
     (api tf_group tf_version namespace tf_plural body = Raise x ->
      create_tf_job tf_group tf_version tf_plural manifest api_object api namespace body
      = ([], Raise x))
     /\ (api kf_group kf_version namespace kf_plural body = Raise x ->
         create_kfserving kf_group kf_version kf_plural manifest api_object api namespace body
         = ([], Raise x)))
  /\ (forall m m',
        (api tf_group tf_version namespace tf_plural body = Raise (ApiException m) ->
         api' tf_group tf_version namespace tf_plural body = Raise (ApiException m') ->
         create_tf_job tf_group tf_version tf_plural manifest api_object api namespace body
         = create_tf_job tf_group tf_version tf_plural manifest api_object api' namespace body)
        /\ (api kf_group kf_version namespace kf_plural body = Raise (ApiException m) ->
            api' kf_group kf_version namespace kf_plural body = Raise (ApiException m') ->
            create_kfserving kf_group kf_version kf_plural manifest api_object api namespace body
            = create_kfserving kf_group kf_version kf_plural manifest api_object api'
                namespace body)).
Proof.
  unfold create_tf_job, create_kfserving, try_except, lift. split.
  - intros x Hx. split; intros ->; destruct x; try reflexivity;
      now destruct (Hx msg).
  - intros m m'. split; intros -> ->; reflexivity.
Qed.

Lemma creation_reclassifies_api_exception_only_witness :
  let timed_out : custom_objects_api string string :=
    fun _ _ _ _ _ => Raise (OtherError "MaxRetryError" "Max retries exceeded") in
  (forall m, OtherError "MaxRetryError" "Max retries exceeded" <> ApiException m)
  /\ create_tf_job "kubeflow.org" "v1beta2" "tfjobs" string string timed_out "default" "mnist"
     = ([], Raise (OtherError "MaxRetryError" "Max retries exceeded")).
Proof.
  assert (Hother_class : forall m, OtherError "MaxRetryError" "Max retries exceeded"
                                   <> ApiException m)
    by (intros m; discriminate).
  split; [exact Hother_class|].
  destruct (creation_reclassifies_api_exception_only "kubeflow.org" "v1beta2" "tfjobs"
              "serving.kubeflow.org" "v1alpha1" "kfservices" string string
              (fun _ _ _ _ _ => Raise (OtherError "MaxRetryError" "Max retries exceeded"))
              (fun _ _ _ _ _ => Raise (OtherError "MaxRetryError" "Max retries exceeded"))
              "default" "mnist") as [Hother _].
  exact (proj1 (Hother (OtherError "MaxRetryError" "Max retries exceeded")
                  Hother_class) eq_refl).
Defined.

(** ** [secret_exists] *)

(** X16.  [secret_exists] answers [True] exactly when the listing of the
    namespace holds a secret of that very name, [False] otherwise (for
    one, on an empty listing); when the listing call raises, the
    exception reaches the caller as it is. *)
Theorem secret_exists_iff_listed
    (api : secret_list_api) (wanted namespace : string) :
  (forall listing, api namespace = Ret listing ->
     exists found,
       secret_exists api wanted namespace = ([], Ret found)
       /\ (found = true <-> exists secret, In secret (items listing)
                                            /\ secret_name secret = wanted))
  /\ (forall x, api namespace = Raise x ->
        secret_exists api wanted namespace = ([], Raise x)).
Proof.
  unfold secret_exists, lift, bind, ret. split.
  - intros listing ->. simpl. eexists. split; [reflexivity|].
    rewrite existsb_exists. split.
    + intros (n & Hin & Heq). apply in_map_iff in Hin. destruct Hin as (secret & <- & Hin).
      apply String.eqb_eq in Heq. now exists secret.
    + intros (secret & Hin & <-). exists (secret_name secret). split.
      * now apply in_map.
      * apply String.eqb_refl.
  - now intros x ->.
Qed.

Lemma secret_exists_iff_listed_witness :
  let listing := {| items := [{| secret_metadata := {| name := "regcred" |} |};
                              {| secret_metadata := {| name := "user-gcp-sa" |} |}] |} in
  let api : secret_list_api := fun _ => Ret listing in
  api "kubeflow" = Ret listing
  /\ secret_exists api "user-gcp-sa" "kubeflow" = ([], Ret true)
  /\ secret_exists api "user-gcp" "kubeflow" = ([], Ret false).
Proof.
  split; [reflexivity|].
  set (listing := {| items := [{| secret_metadata := {| name := "regcred" |} |};
                               {| secret_metadata := {| name := "user-gcp-sa" |} |}] |}).
  destruct (secret_exists_iff_listed (fun _ => Ret listing) "user-gcp-sa" "kubeflow")
    as [Hlisted _].
  destruct (Hlisted listing eq_refl) as (found & Hrun & Hiff).
  split; [|reflexivity].
  rewrite Hrun. f_equal. f_equal. apply Hiff.
  exists {| secret_metadata := {| name := "user-gcp-sa" |} |}. split; [|reflexivity].
  right. left. reflexivity.
Defined.

(** ** Pod log acquisition: the ends of the watch *)

Lemma pod_event_pending api namespace container follow (ev : event V1Pod) :
  pod_phase_of ev = Pending ->
  pod_event api namespace container follow ev = ([pod_debug ev; pod_warning ev], Ret Next).
Proof.
  destruct ev as [ty [[pod_name] [ph cs]]]. unfold pod_phase_of. simpl.
  intros Hph. subst ph.
  destruct cs as [[|c others]|]; reflexivity.
Qed.

(** The run of [log] up to an event whose iteration asks for the handle,
    split at the request. *)
Lemma log_at_request (api : pod_log_api) (who namespace : string) (d : dict)
    (container : string) (follow : bool) (pre post : list (event V1Pod))
    (ev : event V1Pod) (e : stream_end) (notice : effect) :
  Forall (fun p => snd (pod_event api namespace container follow p) = Ret Next) pre ->
  pod_event api namespace container follow ev
    = ([pod_debug ev; notice; open_effect namespace container follow ev],
       open_answer api namespace container follow ev) ->
  is_notice notice = true ->
  exists before after,
    fst (log api who namespace (Some d) container follow
           {| delivered := pre ++ ev :: post; ending := e |})
    = before ++ notice :: open_effect namespace container follow ev :: after
    /\ opens before = 0 /\ pulled before = S (List.length pre)
    /\ opens after = 0 /\ pulled after = 0.
Proof.
  intros Hskip Hev Hnotice.
  rewrite log_trace. unfold for_stream. simpl delivered. simpl ending.
  rewrite (for_each_skips _ _ _ _ Hskip), (for_each_opening _ _ _ _ _ _ _ _ Hev).
  project_pairs.
  destruct (skipped_facts _ _ _ _ _ Hskip) as (Ho & Hp & _ & _).
  set (skipped := flat_map (fun x => fst (pod_event api namespace container follow x)) pre) in *.
  set (r := match api _ _ _ _ with Ret resp => Ret (Some resp) | Raise x => Raise x end).
  destruct (after_watch_facts who r) as [Hao Hap].
  exists ([WatchStream list_namespaced_pod namespace (selector_string d)]
            ++ skipped ++ [pod_debug ev]), (after_watch who r).
  split; [now rewrite <- !app_assoc|].
  rewrite !opens_app, !pulled_app, Ho, Hp. repeat split; auto. cbn. lia.
Qed.

(** X21.  Once the pod is started, [log] asks for its logs exactly once.
    When the events before fell through and the next snapshot is
    log-eligible ([Running] with a ready first container, or [Succeeded])
    and carries a first container status, [log] asks for exactly one log
    handle, for the pod of that snapshot, right after taking it and
    logging that the pod started: none before, none after, and no later
    event is taken. *)
Theorem log_opens_one_handle_when_started
    (api : pod_log_api) (who namespace container : string) (follow : bool)
    (selectors : dict) (pre post : list (event V1Pod)) (ev : event V1Pod) (e : stream_end) :
  Forall (fun p => snd (pod_event api namespace container follow p) = Ret Next) pre ->
  log_eligible ev = true ->
  has_first_status ev = true ->
  let run := log api who namespace (Some selectors) container follow
               {| delivered := pre ++ ev :: post; ending := e |} in
  opens (fst run) = 1
  /\ exists before after,
      fst run = before ++ open_effect namespace container follow ev :: after
      /\ opens before = 0 /\ pulled before = S (List.length pre)
      /\ opens after = 0 /\ pulled after = 0.
Proof.
  intros Hskip Hel Hfirst run. subst run.
  unfold has_first_status in Hfirst.
  destruct (statuses_of ev) as [[|c others]|] eqn:Hcs; try discriminate.
  pose proof (pod_event_started api namespace container follow ev c others Hcs Hel) as Hev.
  destruct (log_at_request api who namespace selectors container follow pre post ev e
              (started_info c) Hskip Hev eq_refl)
    as (before & after & Htrace & Hob & Hpb & Hoa & Hpa).
  rewrite Htrace. split.
  - rewrite opens_app, Hob.
    change (opens (started_info c :: open_effect namespace container follow ev :: after))
      with (1 + opens after). now rewrite Hoa.
  - exists (before ++ [started_info c]), after.
    rewrite <- app_assoc, opens_app, pulled_app, Hob, Hpb. repeat split; auto.
Qed.

Lemma log_opens_one_handle_when_started_witness :
  let run := log (answer_with whole_response) "train" "default" (Some app_predictor) "" true
               {| delivered := slow_start ++ now_ready :: []; ending := Exhausted |} in
  Forall (fun p => snd (pod_event (answer_with whole_response) "default" "" true p) = Ret Next)
    slow_start
  /\ log_eligible now_ready = true
  /\ has_first_status now_ready = true
  /\ opens (fst run) = 1
  /\ exists before after,
      fst run = before ++ ReadPodLog "train-0" "default" true "" :: after
      /\ opens before = 0 /\ pulled before = 4
      /\ opens after = 0 /\ pulled after = 0.
Proof.
  assert (Hpre : Forall (fun p => snd (pod_event (answer_with whole_response)
                                         "default" "" true p) = Ret Next) slow_start)
    by (repeat constructor).
  split; [exact Hpre|]. split; [reflexivity|]. split; [reflexivity|].
  exact (log_opens_one_handle_when_started (answer_with whole_response) "train" "default"
           "" true app_predictor slow_start [] now_ready Exhausted Hpre eq_refl eq_refl).
Defined.

(** X22.  A failure with a terminated container is reported and its logs
    are fetched.  When the events before fell through and the next event
    takes the failure branch (the pod has left [Pending] and is not
    log-eligible; the event is [DELETED], or [phase=Failed], or the first
    container is waiting) with a terminated state on the first container
    status, [log] logs that state's reason and message at [ERROR], asks
    for exactly one log handle right after, and takes no further event. *)
Theorem failed_pod_diagnosed_then_log_opened
    (api : pod_log_api) (who namespace container : string) (follow : bool)
    (selectors : dict) (pre post : list (event V1Pod)) (ev : event V1Pod) (e : stream_end)
    (c : V1ContainerStatus) (others : list V1ContainerStatus)
    (t : V1ContainerStateTerminated) :
  Forall (fun p => snd (pod_event api namespace container follow p) = Ret Next) pre ->
  statuses_of ev = Some (c :: others) ->
  terminated (state c) = Some t ->
  pod_phase_of ev <> Pending ->
  log_eligible ev = false ->
  ev_type ev = DELETED \/ pod_phase_of ev = Failed \/ waiting (state c) <> None ->
  let run := log api who namespace (Some selectors) container follow
               {| delivered := pre ++ ev :: post; ending := e |} in
  opens (fst run) = 1
  /\ exists before after,
      fst run = before ++ launch_error ev t
                  :: open_effect namespace container follow ev :: after
      /\ opens before = 0 /\ pulled before = S (List.length pre)
      /\ opens after = 0 /\ pulled after = 0.
Proof.
  intros Hskip Hcs Hterm Hph Hel Htrig run. subst run.
  pose proof (pod_event_failed api namespace container follow ev c others t
                Hcs Hterm Hph Hel Htrig) as Hev.
  destruct (log_at_request api who namespace selectors container follow pre post ev e
              (launch_error ev t) Hskip Hev eq_refl)
    as (before & after & Htrace & Hob & Hpb & Hoa & Hpa).
  rewrite Htrace. split.
  - rewrite opens_app, Hob.
    change (opens (launch_error ev t :: open_effect namespace container follow ev :: after))
      with (1 + opens after). now rewrite Hoa.
  - now exists before, after.
Qed.

Lemma failed_pod_diagnosed_then_log_opened_witness :
  let pending := pod_snapshot ADDED "train-0" Pending None in
  let run := log (answer_with whole_response) "train" "default" (Some app_predictor) "" true
               {| delivered := [pending] ++ oom_killed :: []; ending := Exhausted |} in
  Forall (fun p => snd (pod_event (answer_with whole_response) "default" "" true p) = Ret Next)
    [pending]
  /\ opens (fst run) = 1
  /\ exists before after,
      fst run = before
                ++ Logger ERROR "Failed to launch %s, reason: %s, message: %s"
                     [VStr "train-0"; VOptStr (Some "OOMKilled");
                      VOptStr (Some "Container exceeded its memory limit")]
                :: ReadPodLog "train-0" "default" true "" :: after
      /\ opens before = 0 /\ pulled before = 2
      /\ opens after = 0 /\ pulled after = 0.
Proof.
  assert (Hpre : Forall (fun p => snd (pod_event (answer_with whole_response)
                                         "default" "" true p) = Ret Next)
                   [pod_snapshot ADDED "train-0" Pending None])
    by (repeat constructor).
  split; [exact Hpre|].
  refine (failed_pod_diagnosed_then_log_opened (answer_with whole_response) "train" "default"
            "" true app_predictor _ [] oom_killed Exhausted _ [] _
            Hpre eq_refl eq_refl _ eq_refl (or_intror (or_introl eq_refl))).
  discriminate.
Defined.

(** X23.  [Pending] is tested first and alone.  On a [Pending] snapshot
    [log] only logs that it is waiting, whatever the event type and the
    container statuses: a pod deleted while [Pending], or stuck with a
    waiting container, never ends the watch.  A watch that delivers only
    [Pending] snapshots ends without a handle request and without an
    [ERROR] diagnostic. *)
Theorem pending_pod_keeps_watch_waiting
    (api : pod_log_api) (who namespace container : string) (follow : bool)
    (selectors : dict) (evs : list (event V1Pod)) :
  Forall (fun p => pod_phase_of p = Pending) evs ->
  let run := log api who namespace (Some selectors) container follow
               {| delivered := evs; ending := Exhausted |} in
  snd run = Ret tt
  /\ opens (fst run) = 0 /\ errors (fst run) = 0 /\ printed (fst run) = []
  /\ pulled (fst run) = List.length evs.
Proof.
  intros Hevs run. subst run.
  assert (Hskip : Forall (fun p => snd (pod_event api namespace container follow p) = Ret Next) evs).
  { revert Hevs. apply Forall_impl. intros p Hp.
    now rewrite (pod_event_pending _ _ _ _ p Hp). }
  rewrite (log_all_skipped _ _ _ _ _ _ _ _ Hskip).
  cbv beta iota zeta. project_pairs.
  destruct (skipped_facts _ _ _ _ _ Hskip) as (Ho & Hp & Hl & _).
  rewrite errors_app, pulled_app, opens_app, printed_app,
    (skipped_errors _ _ _ _ _ Hskip), Ho, Hp, Hl.
  repeat split.
Qed.

Lemma pending_pod_keeps_watch_waiting_witness :
  let deleted := pod_snapshot DELETED "train-0" Pending
                   (Some [{| ready := false; state := state_waiting "ContainerCreating" |}]) in
  let run := log (answer_with whole_response) "train" "default" (Some app_predictor) "" true
               {| delivered := [deleted; pod_snapshot ADDED "train-1" Pending None];
                  ending := Exhausted |} in
  failure_event deleted = true
  /\ snd run = Ret tt
  /\ opens (fst run) = 0 /\ errors (fst run) = 0 /\ printed (fst run) = []
  /\ pulled (fst run) = 2.
Proof.
  split; [reflexivity|].
  refine (pending_pod_keeps_watch_waiting (answer_with whole_response)
            "train" "default" "" true app_predictor
            [pod_snapshot DELETED "train-0" Pending
               (Some [{| ready := false; state := state_waiting "ContainerCreating" |}]);
             pod_snapshot ADDED "train-1" Pending None] _).
  repeat constructor.
Defined.

(** ** The decoder *)

Ltac utf8_step IH Hlen :=
  first
    [ solve [apply IH; simpl in Hlen |- *; lia]
    | solve [split; discriminate]
    | match goal with
      | |- context [match ?l with [] => _ | _ :: _ => _ end] => is_var l; destruct l
      | |- context [negb ?c] => destruct c eqn:?
      | |- context [if ?c then _ else _] => destruct c eqn:?
      | |- context [andb ?c _] => destruct c eqn:?
      end; cbn [andb negb] in * ].

Lemma utf8_failure_none_upto (n : nat) :
  forall (bs : bytes) (pos : nat),
    List.length bs <= n -> (utf8_failure pos bs = None <-> utf8_valid bs = true).
Proof.
  induction n as [|n IH]; intros bs pos Hlen.
  - destruct bs; [now split | simpl in Hlen; lia].
  - destruct bs as [|b1 r1]; [now split|].
    destruct b1; cbn [utf8_failure utf8_valid between second_of_three second_of_four
                      Byte.to_N N.leb N.compare Pos.compare Pos.compare_cont andb negb];
      repeat utf8_step IH Hlen.
Qed.

(** The scan for the decoder's complaint finds one exactly on the bytes
    that are not valid UTF-8: [decode_error_text] is never asked about
    bytes that decode. *)
Lemma utf8_failure_none (bs : bytes) (pos : nat) :
  utf8_failure pos bs = None <-> utf8_valid bs = true.
Proof. now apply (utf8_failure_none_upto (List.length bs)). Qed.
